(** * Cisco ACL renderer ([lib/cisco.py]): shallow embedding and properties

    The renderer turns a vendor-neutral policy (a list of (header, terms)
    pairs) into Cisco access-list text.  Python lists are Rocq lists,
    [str] is [string], integers are [Z], exceptions are a [result] type,
    and the two dictionaries that [ObjectGroup.__str__] uses as seen-sets
    are [gset string].  Loops that can [return] from inside their body are
    written with an explicit loop combinator so that the place of the
    [return] statement is part of the model.  The option words of a header
    are string objects with an identity, because [Cisco.__str__] tests one
    of them with [is]. *)

From Stdlib Require Import ZArith Ascii DecimalString.
From Stdlib Require DecimalPos DecimalZ.
From stdpp Require Import base gmap sets list strings.

Local Open Scope Z_scope.

(** ** Python values and helpers *)

(** ['\n'] *)
Definition nl : string := String (ascii_of_nat 10) EmptyString.

(** ['%d' % n] and [str(n)] for an integer. *)
Definition str_int (n : Z) : string := NilZero.string_of_int (Z.to_int n).

(** [sep.join(l)] *)
Fixpoint join (sep : string) (l : list string) : string :=
  match l with
  | [] => ""
  | [x] => x
  | x :: l' => x +:+ sep +:+ join sep l'
  end.

(** [s.split('\n')], written for an arbitrary one-character separator;
    [cur] holds the characters of the current piece in reverse. *)
Fixpoint split_go (sep : ascii) (cur : string) (s : string) : list string :=
  match s with
  | EmptyString => [String.rev cur]
  | String c s' =>
      if Ascii.eqb c sep then String.rev cur :: split_go sep EmptyString s'
      else split_go sep (String c cur) s'
  end.

Definition split_nl (s : string) : list string :=
  split_go (ascii_of_nat 10) EmptyString s.

(** [s[:n]] *)
Fixpoint take_str (n : nat) (s : string) : string :=
  match n, s with
  | S n', String c s' => String c (take_str n' s')
  | _, _ => EmptyString
  end.

(** [s.lower()] on byte strings: only A-Z change. *)
Definition lower_ascii (c : ascii) : ascii :=
  let n := nat_of_ascii c in
  if ((65 <=? n) && (n <=? 90))%nat then ascii_of_nat (n + 32) else c.

Fixpoint lower (s : string) : string :=
  match s with
  | EmptyString => EmptyString
  | String c s' => String (lower_ascii c) (lower s')
  end.

(** [s.isdigit()]: non-empty and every byte in 0-9. *)
Definition is_digit (c : ascii) : bool :=
  let n := nat_of_ascii c in ((48 <=? n) && (n <=? 57))%nat.

Fixpoint all_digits (s : string) : bool :=
  match s with
  | EmptyString => true
  | String c s' => is_digit c && all_digits s'
  end.

Definition isdigit (s : string) : bool :=
  match s with
  | EmptyString => false
  | _ => all_digits s
  end.

(** [int(s)] for a string of decimal digits. *)
Fixpoint int_go (acc : Z) (s : string) : Z :=
  match s with
  | EmptyString => acc
  | String c s' => int_go (10 * acc + (Z.of_nat (nat_of_ascii c) - 48)) s'
  end.

Definition int (s : string) : Z := int_go 0 s.

(** [s.find(p) == 0] *)
Definition startswith (p s : string) : bool := String.prefix p s.

(** [x in l] for a list of strings. *)
Definition str_in (x : string) (l : list string) : bool :=
  existsb (String.eqb x) l.
Arguments str_in : simpl never.

(** A protocol as the policy carries it: a name, or a number already. *)
Inductive proto : Type :=
  | PNum (n : Z)
  | PName (s : string).

Definition str_proto (p : proto) : string :=
  match p with
  | PNum n => str_int n
  | PName s => s
  end.

(** [6 in protocol]: an [int] equals a list element only if that element
    is the same number; it never equals a [str]. *)
Definition proto_is (n : Z) (p : proto) : bool :=
  match p with
  | PNum m => n =? m
  | PName _ => false
  end.

(** ** Exceptions *)

Inductive error : Type :=
  | NoCiscoPolicyError
  | UnsupportedCiscoAccessListError
  | StandardAclTermError
  | TypeError.

Inductive result (A : Type) : Type :=
  | Ok (a : A)
  | Raise (e : error).
Arguments Ok {A} a.
Arguments Raise {A} e.

#[global] Instance result_ret : MRet result := fun A a => Ok a.

#[global] Instance result_bind : MBind result := fun A B k r =>
  match r with
  | Ok a => k a
  | Raise e => Raise e
  end.

(** ** Loops with [return] in the body *)

Inductive flow (S R : Type) : Type :=
  | Continue (s : S)
  | Return (r : R).
Arguments Continue {S R} s.
Arguments Return {S R} r.

(** [for x in l: body] over a loop state [s]; the body either goes on to
    the next element or leaves the enclosing function with a value. *)
Fixpoint for_each {A S R} (body : A → S → flow S R) (l : list A) (s : S)
  : flow S R :=
  match l with
  | [] => Continue s
  | x :: l' =>
      match body x s with
      | Continue s' => for_each body l' s'
      | Return r => Return r
      end
  end.

(** The same loop for a body that can raise. *)
Fixpoint for_each_r {A S R} (body : A → S → result (flow S R))
    (l : list A) (s : S) : result (flow S R) :=
  match l with
  | [] => Ok (Continue s)
  | x :: l' =>
      match body x s with
      | Ok (Continue s') => for_each_r body l' s'
      | Ok (Return r) => Ok (Return r)
      | Raise e => Raise e
      end
  end.

(** ** The policy model read by the renderer *)

Inductive family : Type := IPv4 | IPv6.

Definition family_eqb (a b : family) : bool :=
  match a, b with
  | IPv4, IPv4 | IPv6, IPv6 => true
  | _, _ => false
  end.

Definition version_of (f : family) : Z :=
  match f with IPv4 => 4 | IPv6 => 6 end.

(** Modelled from the spec: [nacaddr] and [ipaddr] are imported by the
    renderer but are not part of this file.  An address is a value with a
    family and the attributes the renderer reads from it, each already in
    the text form that [%s] prints.  The family stands for the concrete
    class of the object ([nacaddr.IPv4]/[ipaddr.IPv4Network] are [IPv4],
    the two v6 classes are [IPv6]). *)
Record Address : Type := {
  addr_family : family;
  ip : string;
  network : string;
  netmask : string;
  hostmask : string;
  prefixlen : Z;
  numhosts : Z;
  parent_token : string;
  addr_str : string
}.

(** A port range as the loops see it: [()] or [(low, high)]. *)
Definition port : Type := option (Z * Z).

(** Modelled from the spec: the policy term class lives in [policy.py].
    These are the attributes the renderer reads; [term_option] holds
    [str(x)] of each option, [term_action] is [action[0]], a verbatim
    entry is its [value] pair (platform, text). *)
Record PolicyTerm : Type := {
  term_name : string;
  term_comment : list string;
  term_action : string;
  term_protocol : list proto;
  term_address : list Address;
  term_source_address : list Address;
  term_source_address_exclude : list Address;
  term_destination_address : list Address;
  term_destination_address_exclude : list Address;
  term_source_port : list port;
  term_destination_port : list port;
  term_option : list string;
  term_verbatim : list (string * string);
  term_counter : option string;
  term_logging : bool
}.

(** Modelled from the spec: [term.GetAddressOfVersion(field, af)] keeps
    the addresses of the field whose family is [af]. *)
Definition GetAddressOfVersion (l : list Address) (af : Z) : list Address :=
  List.filter (fun a => version_of (addr_family a) =? af) l.

(** A string object as far as the renderer can tell two of them apart:
    its text, and whether it is the interned object of that text.  A word
    that stands in Python source as a literal such as ['extended'] is
    interned; a string built at run time, as a parser cuts it out of the
    policy text, is not.  [==] and [in] compare texts, [is] compares
    objects. *)
Record pystr : Type := {
  str_text : string;
  str_interned : bool
}.

(** A literal of the source. *)
Definition literal (s : string) : pystr :=
  {| str_text := s; str_interned := true |}.

(** A string built at run time. *)
Definition built (s : string) : pystr :=
  {| str_text := s; str_interned := false |}.

(** [x is 'lit'], for a literal of the source: the same object only if
    [x] is the interned string with that text. *)
Definition is_ (x : pystr) (lit : string) : bool :=
  String.eqb (str_text x) lit && str_interned x.

(** Modelled from the spec: a header of [policy.py], with what
    [FilterOptions('cisco')] and [FilterName('cisco')] return; the options
    are string objects, because the renderer tests one of them with [is]. *)
Record Header : Type := {
  header_platforms : list string;
  header_target : string;
  header_comment : list string;
  header_filter_options : list pystr;
  header_filter_name : string
}.

(** Modelled from the spec: the policy is an ordered sequence of
    (header, terms) pairs, and [pol.headers] lists the headers of these
    pairs. *)
Record Policy : Type := {
  filters : list (Header * list PolicyTerm)
}.

Definition headers (pol : Policy) : list Header := map fst (filters pol).

(** ** [_ACTION_TABLE] *)

Definition _ACTION_TABLE : list (string * string) :=
  [ ("accept", "permit");
    ("deny", "deny");
    ("reject", "deny");
    ("next", "! next");
    ("reject-with-tcp-rst", "deny") ].

(** [d.get(k)] *)
Fixpoint dict_get (d : list (string * string)) (k : string) : option string :=
  match d with
  | [] => None
  | (k', v) :: d' => if String.eqb k' k then Some v else dict_get d' k
  end.

(** ['%s' % x] for the result of [dict.get]. *)
Definition str_opt (o : option string) : string :=
  match o with
  | Some s => s
  | None => "None"
  end.

(** The protocol database behind [socket.getprotobyname]: official names
    and assigned numbers as shipped in [/etc/protocols]. *)
Definition etc_protocols : list (string * Z) :=
  [ ("ip", 0); ("icmp", 1); ("igmp", 2); ("ggp", 3); ("ipencap", 4);
    ("st", 5); ("tcp", 6); ("egp", 8); ("igp", 9); ("pup", 12);
    ("udp", 17); ("hmp", 20); ("xns-idp", 22); ("rdp", 27);
    ("iso-tp4", 29); ("dccp", 33); ("xtp", 36); ("ddp", 37);
    ("idpr-cmtp", 38); ("ipv6", 41); ("ipv6-route", 43);
    ("ipv6-frag", 44); ("idrp", 45); ("rsvp", 46); ("gre", 47);
    ("esp", 50); ("ah", 51); ("skip", 57); ("ipv6-icmp", 58);
    ("ipv6-nonxt", 59); ("ipv6-opts", 60); ("rspf", 73); ("vmtp", 81);
    ("eigrp", 88); ("ospf", 89); ("ax.25", 93); ("ipip", 94);
    ("etherip", 97); ("encap", 98); ("pim", 103); ("ipcomp", 108);
    ("vrrp", 112); ("l2tp", 115); ("isis", 124); ("sctp", 132);
    ("fc", 133); ("udplite", 136); ("mpls-in-ip", 137); ("manet", 138);
    ("hip", 139); ("shim6", 140); ("wesp", 141); ("rohc", 142) ].

(** [socket.getprotobyname] over that database; [None] is [socket.error]. *)
Fixpoint lookup_proto (db : list (string * Z)) (name : string) : option Z :=
  match db with
  | [] => None
  | (k, n) :: db' => if String.eqb k name then Some n else lookup_proto db' name
  end.

Definition system_getprotobyname : string → option Z :=
  lookup_proto etc_protocols.

(** One address passed to the extended renderer's inner loop: the string
    ['any'] or an address object. *)
Inductive addr_arg : Type :=
  | AnyAddr
  | AddrObj (a : Address).

Section Renderer.

(** What the renderer takes from its surroundings: the system protocol
    lookup ([None] when it raises [socket.error]) and the address
    exclusion of [nacaddr]. *)
Variable getprotobyname : string → option Z.
Variable ExcludeAddrs : list Address → list Address → list Address.

(** *** [FixupProtocol] *)

Definition FixupProtocol (p : proto) : proto :=
  match p with
  | PName s =>
      match getprotobyname (lower s) with
      | Some n => PNum n
      | None => p
      end
  | PNum _ => p
  end.

(** *** Shared pieces *)

(** Truth value of a Python list. *)
Definition nonempty {A} (l : list A) : bool :=
  match l with
  | [] => false
  | _ => true
  end.

(** Truth value of an attribute that is [None] until the policy sets it. *)
Definition is_set {A} (o : option A) : bool :=
  match o with
  | Some _ => true
  | None => false
  end.

(** The verbatim loop, which the three term classes spell the same way:
<<
    for next in self.term.verbatim:
      if next.value[0] == 'cisco':
        ret_str.append(str(next.value[1]))
      return '\n'.join(ret_str)
>>
    The [return] is a statement of the loop body. *)
Definition verbatim_body (next : string * string) (ret_str : list string)
  : flow (list string) string :=
  let ret_str :=
    if String.eqb (fst next) "cisco" then ret_str ++ [snd next] else ret_str in
  Return (join nl ret_str).

Definition verbatim_exit (t : PolicyTerm) (ret_str : list string)
  : flow (list string) string :=
  if nonempty (term_verbatim t)
  then for_each verbatim_body (term_verbatim t) ret_str
  else Continue ret_str.

(** The port text of the extended renderer. *)
Definition port_repr (p : port) : string :=
  match p with
  | None => ""
  | Some (lo, hi) =>
      if negb (lo =? hi) then "range " +:+ str_int lo +:+ " " +:+ str_int hi
      else "eq " +:+ str_int lo
  end.

(** *** [TermStandard] *)

Record TermStandard : Type := {
  ts_term : PolicyTerm;
  ts_filter_name : string;
  ts_options : list string
}.

Definition TermStandard_init (term : PolicyTerm) (filter_name : string)
  : result TermStandard :=
  if nonempty (term_protocol term) then Raise StandardAclTermError
  else if nonempty (term_source_address term)
          || nonempty (term_source_address_exclude term)
          || nonempty (term_destination_address term)
          || nonempty (term_destination_address_exclude term)
  then Raise StandardAclTermError
  else if nonempty (term_option term) then Raise StandardAclTermError
  else if nonempty (term_source_port term)
          || nonempty (term_destination_port term)
  then Raise StandardAclTermError
  else if is_set (term_counter term) then Raise StandardAclTermError
  else if term_logging term then Raise StandardAclTermError
  else Ok {| ts_term := term; ts_filter_name := filter_name; ts_options := [] |}.

Definition TermStandard_remarks (t : PolicyTerm) : list string :=
  ("remark " +:+ term_name t)
    :: flat_map (fun comment =>
                   map (fun line => "remark " +:+ line) (split_nl comment))
                (term_comment t).

Definition TermStandard_line (filter_name : string) (t : PolicyTerm)
    (addr : Address) : list string :=
  match addr_family addr with
  | IPv6 => []
  | IPv4 =>
      let action := dict_get _ACTION_TABLE (term_action t) in
      if prefixlen addr =? 32
      then ["access-list " +:+ filter_name +:+ " " +:+ str_opt action
            +:+ " " +:+ ip addr]
      else ["access-list " +:+ filter_name +:+ " " +:+ str_opt action
            +:+ " " +:+ network addr +:+ " " +:+ hostmask addr]
  end.

Definition TermStandard_str (self : TermStandard) : string :=
  let t := ts_term self in
  match verbatim_exit t (TermStandard_remarks t) with
  | Return r => r
  | Continue ret_str =>
      join nl (ret_str
               ++ flat_map (TermStandard_line (ts_filter_name self) t)
                    (term_address t))
  end.

(** *** [ObjectGroup] *)

Record ObjectGroup : Type := {
  og_filter_name : string;
  og_terms : list PolicyTerm
}.

Definition ObjectGroup_init : ObjectGroup :=
  {| og_filter_name := ""; og_terms := [] |}.

Definition ObjectGroup_valid (self : ObjectGroup) : bool :=
  (0 <? length (og_terms self))%nat.

Definition AddTerm (self : ObjectGroup) (term : PolicyTerm) : ObjectGroup :=
  {| og_filter_name := og_filter_name self;
     og_terms := og_terms self ++ [term] |}.

Definition AddName (self : ObjectGroup) (filter_name : string) : ObjectGroup :=
  {| og_filter_name := filter_name; og_terms := og_terms self |}.

(** The locals of [ObjectGroup.__str__]: the two dictionaries (only their
    keys are ever read) and the output list. *)
Record og_state : Type := {
  og_addresses : gset string;
  og_ports : gset string;
  og_ret_str : list string
}.

(** [if addrs and not addrs[0].parent_token in addresses: ...], the block
    written once for the source and once for the destination addresses. *)
Definition og_address_group (addrs : list Address) (st : og_state) : og_state :=
  match addrs with
  | [] => st
  | a0 :: _ =>
      if decide (parent_token a0 ∈ og_addresses st) then st
      else {| og_addresses := {[ parent_token a0 ]} ∪ og_addresses st;
              og_ports := og_ports st;
              og_ret_str :=
                og_ret_str st
                ++ ["object-group ip address " +:+ parent_token a0]
                ++ map (fun addr => " " +:+ ip addr +:+ " " +:+ netmask addr)
                     addrs
                ++ ["exit" +:+ nl] |}
  end.

Definition port_key (lo hi : Z) : string := str_int lo +:+ "-" +:+ str_int hi.

(** The body of [for port in term.source_port + term.destination_port]. *)
Definition og_port_group (st : og_state) (p : port) : og_state :=
  match p with
  | None => st
  | Some (lo, hi) =>
      if decide (port_key lo hi ∈ og_ports st) then st
      else {| og_addresses := og_addresses st;
              og_ports := {[ port_key lo hi ]} ∪ og_ports st;
              og_ret_str :=
                og_ret_str st
                ++ ["object-group ip port " +:+ port_key lo hi]
                ++ [if negb (lo =? hi)
                    then " range " +:+ str_int lo +:+ " " +:+ str_int hi
                    else " eq " +:+ str_int lo]
                ++ ["exit" +:+ nl] |}
  end.

(** The body of [for term in self.terms]. *)
Definition og_term (st : og_state) (term : PolicyTerm) : og_state :=
  let st := og_address_group
              (GetAddressOfVersion (term_source_address term) 4) st in
  let st := og_address_group
              (GetAddressOfVersion (term_destination_address term) 4) st in
  fold_left og_port_group
    (term_source_port term ++ term_destination_port term) st.

Definition og_start : og_state :=
  {| og_addresses := ∅; og_ports := ∅; og_ret_str := [nl] |}.

(** The list [ret_str] when the loop over the collected terms ends. *)
Definition ObjectGroup_ret_str (terms : list PolicyTerm) : list string :=
  og_ret_str (fold_left og_term terms og_start).

Definition ObjectGroup_str (self : ObjectGroup) : string :=
  join nl (ObjectGroup_ret_str (og_terms self)).

(** *** [ObjectGroupTerm] *)

Record ObjectGroupTerm : Type := {
  ogt_term : PolicyTerm;
  ogt_filter_name : string
}.

Definition ObjectGroupTerm_init (term : PolicyTerm) (filter_name : string)
  : ObjectGroupTerm :=
  {| ogt_term := term; ogt_filter_name := filter_name |}.

(** [nacaddr.IPv4('0.0.0.0/0', token='ANY')] *)
Definition ANY : Address :=
  {| addr_family := IPv4; ip := "0.0.0.0"; network := "0.0.0.0";
     netmask := "0.0.0.0"; hostmask := "255.255.255.255"; prefixlen := 0;
     numhosts := 4294967296; parent_token := "ANY";
     addr_str := "0.0.0.0/0" |}.

(** [if saddr:] and [if daddr:] test address objects, which are true. *)
Definition ObjectGroupTerm_TermletToStr (action : option string) (pr : proto)
    (saddr : Address) (sport : port) (daddr : Address) (dport : port)
  : string :=
  let saddr := "addrgroup " +:+ addr_str saddr in
  let daddr := "addrgroup " +:+ addr_str daddr in
  let port_text (p : port) :=
    match p with
    | Some (lo, hi) => "portgroup " +:+ str_int lo +:+ "-" +:+ str_int hi
    | None => ""
    end in
  " " +:+ str_opt action +:+ " " +:+ str_proto pr +:+ " " +:+ saddr
  +:+ " " +:+ port_text sport +:+ " " +:+ daddr +:+ " " +:+ port_text dport.

Definition ObjectGroupTerm_remarks (t : PolicyTerm) : list string :=
  [nl; "remark " +:+ term_name t]
  ++ flat_map (fun comment =>
                 map (fun line => "remark " +:+ line) (split_nl comment))
       (term_comment t).

Definition ObjectGroupTerm_statements (t : PolicyTerm) : list string :=
  let protocol :=
    if nonempty (term_protocol t) then map FixupProtocol (term_protocol t)
    else [PName "ip"] in
  let source_address :=
    if nonempty (term_source_address t) then term_source_address t
    else [ANY] in
  let destination_address :=
    if nonempty (term_destination_address t) then term_destination_address t
    else [ANY] in
  let source_port :=
    if nonempty (term_source_port t) then term_source_port t else [None] in
  let destination_port :=
    if nonempty (term_destination_port t) then term_destination_port t
    else [None] in
  flat_map (fun saddr =>
  flat_map (fun daddr =>
  flat_map (fun sport =>
  flat_map (fun dport =>
  flat_map (fun pr =>
    [ObjectGroupTerm_TermletToStr (dict_get _ACTION_TABLE (term_action t))
       pr saddr sport daddr dport])
    protocol) destination_port) source_port) destination_address)
    source_address.

Definition ObjectGroupTerm_str (self : ObjectGroupTerm) : string :=
  let t := ogt_term self in
  match verbatim_exit t (ObjectGroupTerm_remarks t) with
  | Return r => r
  | Continue ret_str => join nl (ret_str ++ ObjectGroupTerm_statements t)
  end.

(** *** [Term], the extended and inet6 renderer *)

Record Term : Type := {
  t_term : PolicyTerm;
  t_options : list string;
  t_af : Z
}.

Definition Term_init (term : PolicyTerm) (af : Z) : Term :=
  {| t_term := term; t_options := [];
     t_af := if af =? 6 then 6 else 4 |}.

Definition is_family (f : family) (a : addr_arg) : bool :=
  match a with
  | AddrObj x => family_eqb (addr_family x) f
  | AnyAddr => false
  end.

Definition is_any (a : addr_arg) : bool :=
  match a with
  | AnyAddr => true
  | AddrObj _ => false
  end.

(** The text of one address in [_TermletToStr]. *)
Definition addr_repr (a : addr_arg) : string :=
  match a with
  | AnyAddr => "any"
  | AddrObj x =>
      match addr_family x with
      | IPv4 =>
          if 1 <? numhosts x then ip x +:+ " " +:+ hostmask x
          else "host " +:+ ip x
      | IPv6 =>
          if 1 <? numhosts x then ip x +:+ "/" +:+ str_int (prefixlen x)
          else "host " +:+ ip x
      end
  end.

Definition _TermletToStr (action : option string) (pr : proto)
    (saddr : addr_arg) (sport : port) (daddr : addr_arg) (dport : port)
    (option : list string) : string :=
  let option := if nonempty option then option else [""] in
  " " +:+ str_opt action +:+ " " +:+ str_proto pr +:+ " " +:+ addr_repr saddr
  +:+ " " +:+ port_repr sport +:+ " " +:+ addr_repr daddr
  +:+ " " +:+ port_repr dport +:+ " " +:+ join " " option.

Definition Term_remarks (t : PolicyTerm) : list string :=
  [nl; "remark " +:+ term_name t]
  ++ flat_map (fun comment =>
                 map (fun line => "remark " +:+ take_str 100 line)
                   (split_nl comment))
       (term_comment t).

Definition Term_protocol (t : PolicyTerm) : list proto :=
  if nonempty (term_protocol t) then map FixupProtocol (term_protocol t)
  else [PName "ip"].

(** The source or destination addresses the loops run over. *)
Definition Term_addresses (af : Z) (addrs excl : list Address) : list addr_arg :=
  if nonempty addrs then
    let address := GetAddressOfVersion addrs af in
    let address_exclude := GetAddressOfVersion excl af in
    map AddrObj
      (if nonempty address_exclude then ExcludeAddrs address address_exclude
       else address)
  else [AnyAddr].

Definition Term_source_address (self : Term) : list addr_arg :=
  Term_addresses (t_af self) (term_source_address (t_term self))
    (term_source_address_exclude (t_term self)).

Definition Term_destination_address (self : Term) : list addr_arg :=
  Term_addresses (t_af self) (term_destination_address (t_term self))
    (term_destination_address_exclude (t_term self)).

Definition Term_source_port (t : PolicyTerm) : list port :=
  if nonempty (term_source_port t) then term_source_port t else [None].

Definition Term_destination_port (t : PolicyTerm) : list port :=
  if nonempty (term_destination_port t) then term_destination_port t
  else [None].

(** [self.options] when the five loops start. *)
Definition Term_options (self : Term) : list string :=
  let protocol := Term_protocol (t_term self) in
  let extra_options :=
    flat_map (fun opt =>
                if startswith "tcp-established" opt
                   && existsb (proto_is 6) protocol
                then ["established"]
                else if startswith "established" opt
                        && existsb (proto_is 6) protocol
                then ["established"]
                else [])
      (term_option (t_term self)) in
  let options := t_options self ++ extra_options in
  if term_logging (t_term self) then options ++ ["log"] else options.

Definition do_output (af : Z) (saddr daddr : addr_arg) : bool :=
  let do_output := false in
  let do_output :=
    if af =? 4 then
      if (is_family IPv4 saddr || is_any saddr)
         && (is_family IPv4 daddr || is_any daddr)
      then true else do_output
    else do_output in
  let do_output :=
    if af =? 6 then
      if (is_family IPv6 saddr || is_any saddr)
         && (is_family IPv6 daddr || is_any daddr)
      then true else do_output
    else do_output in
  do_output.

(** The lines the five nested loops append. *)
Definition Term_statements (self : Term) : list string :=
  let t := t_term self in
  let options := Term_options self in
  flat_map (fun saddr =>
  flat_map (fun daddr =>
  flat_map (fun sport =>
  flat_map (fun dport =>
  flat_map (fun pr =>
    if do_output (t_af self) saddr daddr
    then [_TermletToStr (dict_get _ACTION_TABLE (term_action t))
            pr saddr sport daddr dport options]
    else [])
    (Term_protocol t)) (Term_destination_port t)) (Term_source_port t))
    (Term_destination_address self)) (Term_source_address self).

Definition Term_str (self : Term) : string :=
  match verbatim_exit (t_term self) (Term_remarks (t_term self)) with
  | Return r => r
  | Continue ret_str => join nl (ret_str ++ Term_statements self)
  end.

(** *** [Cisco] *)

Record Cisco : Type := {
  policy : Policy
}.

(** [for header in pol.headers: if 'cisco' not in header.platforms: raise] *)
Fixpoint check_headers (hs : list Header) : result unit :=
  match hs with
  | [] => Ok ()
  | header :: hs' =>
      if negb (str_in "cisco" (header_platforms header))
      then Raise NoCiscoPolicyError
      else check_headers hs'
  end.

(** The term after an assignment to its [destination_port]. *)
Definition set_destination_port (term : PolicyTerm) (destination_port : list port)
  : PolicyTerm :=
  {| term_name := term_name term;
     term_comment := term_comment term;
     term_action := term_action term;
     term_protocol := term_protocol term;
     term_address := term_address term;
     term_source_address := term_source_address term;
     term_source_address_exclude := term_source_address_exclude term;
     term_destination_address := term_destination_address term;
     term_destination_address_exclude := term_destination_address_exclude term;
     term_source_port := term_source_port term;
     term_destination_port := destination_port;
     term_option := term_option term;
     term_verbatim := term_verbatim term;
     term_counter := term_counter term;
     term_logging := term_logging term |}.

(** [term.destination_port.append((1024,65535))] *)
Definition append_high_ports (term : PolicyTerm) : PolicyTerm :=
  set_destination_port term (term_destination_port term ++ [Some (1024, 65535)]).

(** [for opt in [str(x) for x in term.option]: if opt.find('established') == 0: ...] *)
Definition established_high_ports (term : PolicyTerm) : PolicyTerm :=
  fold_left (fun term opt =>
               if startswith "established" opt then append_high_ports term
               else term)
    (term_option term) term.

Definition Cisco_init (pol : Policy) : result Cisco :=
  _ ← check_headers (headers pol);
  Ok {| policy :=
          {| filters :=
               map (fun '(headers, terms) =>
                      (headers, map established_high_ports terms))
                 (filters pol) |} |}.

Definition good_filters : list string :=
  ["extended"; "standard"; "object-group"; "inet6"; "mixed"].

Definition target_header : list string :=
  ["! " +:+ ("$I" +:+ "d:$"); "! " +:+ ("$Da" +:+ "te:$")].

(** A [for] loop whose body can raise but does not [return]. *)
Fixpoint for_r {A S} (body : S → A → result S) (l : list A) (s : S)
  : result S :=
  match l with
  | [] => Ok s
  | x :: l' => s' ← body s x; for_r body l' s'
  end.

(** The locals [target] and [obj_target] of [Cisco.__str__]. *)
Definition assembly : Type := (list string * ObjectGroup)%type.

(** The body of [for term in terms]. *)
Definition add_term (filter_type filter_name : string) (st : assembly)
    (term : PolicyTerm) : result assembly :=
  let '(target, obj_target) := st in
  if String.eqb filter_type "standard" then
    ts ← TermStandard_init term filter_name;
    Ok (target ++ [TermStandard_str ts], obj_target)
  else if String.eqb filter_type "extended" then
    Ok (target ++ [Term_str (Term_init term 4)], obj_target)
  else if String.eqb filter_type "object-group" then
    let obj_target := AddTerm obj_target term in
    Ok (target ++ [ObjectGroupTerm_str (ObjectGroupTerm_init term filter_name)],
        obj_target)
  else if String.eqb filter_type "inet6" then
    Ok (target ++ [Term_str (Term_init term 6)], obj_target)
  else Ok st.

(** The body of [for filter_type in filter_list].  The first test is
    [filter_type is 'extended'], an identity test; the other tests and
    those of the term loop are [==]. *)
Definition render_filter_type (header : Header) (terms : list PolicyTerm)
    (filter_name : string) (st : assembly) (filter_type : pystr)
  : result assembly :=
  let '(target, obj_target) := st in
  target ←
    (if is_ filter_type "extended" then
       if isdigit filter_name
          && ((1 <=? int filter_name) && (int filter_name <=? 99))
       then Raise UnsupportedCiscoAccessListError
       else Ok (target ++ ["no ip access-list extended " +:+ filter_name;
                           "ip access-list extended " +:+ filter_name])
     else Ok target);
  target ←
    (if String.eqb (str_text filter_type) "standard" then
       if negb (isdigit filter_name)
       then Raise UnsupportedCiscoAccessListError
       else if isdigit filter_name
               && negb ((1 <=? int filter_name) && (int filter_name <=? 99))
       then Raise UnsupportedCiscoAccessListError
       else Ok (target ++ ["no ip access-list " +:+ filter_name])
     else Ok target);
  let '(target, obj_target) :=
    if String.eqb (str_text filter_type) "object-group" then
      (target ++ ["no ip access-list extended " +:+ filter_name;
                  "ip access-list extended " +:+ filter_name],
       AddName obj_target filter_name)
    else (target, obj_target) in
  let target :=
    if String.eqb (str_text filter_type) "inet6" then
      target ++ ["no ipv6 access-list " +:+ filter_name;
                 "ipv6 access-list " +:+ filter_name]
    else target in
  let target :=
    target ++ flat_map (fun comment =>
                          map (fun line => "remark " +:+ line)
                            (split_nl comment))
                (header_comment header) in
  '(target, obj_target) ←
    for_r (add_term (str_text filter_type) filter_name) terms
      (target, obj_target);
  Ok (target ++ [nl], obj_target).

(** The filter subtype: the literal ['extended'] unless the options name
    one, and then the object the options hold. *)
Definition resolved_filter_type (header : Header) : pystr :=
  let filter_options := header_filter_options header in
  if (1 <? length filter_options)%nat
  then nth 1 filter_options (literal "extended")
  else literal "extended".

(** The passes over one filter: a mixed filter is rendered as extended
    and then as inet6, both words being literals of the source. *)
Definition filter_list (filter_type : pystr) : list pystr :=
  if String.eqb (str_text filter_type) "mixed"
  then [literal "extended"; literal "inet6"]
  else [filter_type].

(** The body of [for header, terms in self.policy.filters], up to and
    including its last statement, [return '\n'.join(target)]. *)
Definition filter_body (f : Header * list PolicyTerm) (st : assembly)
  : result (flow assembly string) :=
  let '(header, terms) := f in
  let filter_name := header_filter_name header in
  let filter_type := resolved_filter_type header in
  if negb (str_in (str_text filter_type) good_filters)
  then Raise UnsupportedCiscoAccessListError
  else
    '(target, obj_target) ←
      for_r (render_filter_type header terms filter_name)
        (filter_list filter_type) st;
    let target :=
      if ObjectGroup_valid obj_target
      then [ObjectGroup_str obj_target] ++ target
      else target in
    let target := target_header ++ target in
    Ok (Return (join nl target)).

(** [str(cisco)]: a loop that ends without reaching [return] leaves
    [__str__] with [None], which [str] refuses. *)
Definition Cisco_str (self : Cisco) : result string :=
  r ← for_each_r filter_body (filters (policy self)) ([], ObjectGroup_init);
  match r with
  | Return doc => Ok doc
  | Continue _ => Raise TypeError
  end.

End Renderer.

(** ** Vocabulary of the properties *)

(** The six things a standard term must not carry. *)
Definition carries_protocol (t : PolicyTerm) : Prop := term_protocol t ≠ [].
Definition carries_address (t : PolicyTerm) : Prop :=
  term_source_address t ≠ [] ∨ term_source_address_exclude t ≠ []
  ∨ term_destination_address t ≠ [] ∨ term_destination_address_exclude t ≠ [].
Definition carries_option (t : PolicyTerm) : Prop := term_option t ≠ [].
Definition carries_port (t : PolicyTerm) : Prop :=
  term_source_port t ≠ [] ∨ term_destination_port t ≠ [].
Definition carries_counter (t : PolicyTerm) : Prop := term_counter t ≠ None.
Definition carries_logging (t : PolicyTerm) : Prop := term_logging t = true.

(** What the body of the filter loop does once the passes over the filter
    are through: put the object groups first, the two marker lines before
    them, and return the joined text. *)
Definition assemble (st : assembly) : string :=
  let '(target, obj_target) := st in
  join nl (target_header
           ++ (if ObjectGroup_valid obj_target
               then [ObjectGroup_str obj_target] else [])
           ++ target).

(** The name is all digits and its value lies in 1..99. *)
Definition numbered_1_99 (filter_name : string) : Prop :=
  isdigit filter_name = true ∧ 1 ≤ int filter_name ≤ 99.

(** [sub in s]: the text [sub] occurs somewhere in [s]. *)
Fixpoint contains (sub s : string) : bool :=
  String.prefix sub s
  || match s with
     | EmptyString => false
     | String _ s' => contains sub s'
     end.

(** [s.endswith(suffix)] *)
Definition endswith (suffix s : string) : bool :=
  String.prefix (String.rev suffix) (String.rev s).

(** The synthetic range appended for [established]. *)
Definition high_ports : port := Some (1024, 65535).

(** One iteration of the five nested loops of [Term.__str__]. *)
Definition combination : Type := (addr_arg * addr_arg * port * port * proto)%type.

(** The address is an object of the other family; ['any'] never is. *)
Definition family_differs (af : Z) (a : addr_arg) : bool :=
  match a with
  | AnyAddr => false
  | AddrObj x => negb (version_of (addr_family x) =? af)
  end.

Definition family_mismatch (af : Z) (c : combination) : bool :=
  let '(saddr, daddr, _, _, _) := c in
  family_differs af saddr || family_differs af daddr.

(** The iterations of the five nested loops, in the order of the loops. *)
Definition Term_combinations (getprotobyname : string → option Z)
    (ExcludeAddrs : list Address → list Address → list Address)
    (self : Term) : list combination :=
  flat_map (fun saddr =>
  flat_map (fun daddr =>
  flat_map (fun sport =>
  flat_map (fun dport =>
  flat_map (fun pr => [(saddr, daddr, sport, dport, pr)])
    (Term_protocol getprotobyname (t_term self)))
    (Term_destination_port (t_term self)))
    (Term_source_port (t_term self)))
    (Term_destination_address ExcludeAddrs self))
    (Term_source_address ExcludeAddrs self).

(** The line appended for one combination, when one is. *)
Definition statement_of (getprotobyname : string → option Z) (self : Term)
    (c : combination) : string :=
  let '(saddr, daddr, sport, dport, pr) := c in
  _TermletToStr (dict_get _ACTION_TABLE (term_action (t_term self)))
    pr saddr sport daddr dport (Term_options getprotobyname self).

(** The first line of an address group and of a port group. *)
Definition address_group_header (token : string) : string :=
  "object-group ip address " +:+ token.

Definition port_group_header (key : string) : string :=
  "object-group ip port " +:+ key.

(** How often a line occurs in a list of lines. *)
Definition occurrences (line : string) (lines : list string) : nat :=
  count_occ String.string_dec lines line.

(** The two seen-sets say which headers are in the output, and each of
    those is there once. *)
Definition og_invariant (st : og_state) : Prop :=
  (∀ token,
     occurrences (address_group_header token) (og_ret_str st)
     = if decide (token ∈ og_addresses st) then 1%nat else 0%nat)
  ∧ (∀ key,
       occurrences (port_group_header key) (og_ret_str st)
       = if decide (key ∈ og_ports st) then 1%nat else 0%nat).

(** The output only grows at its end, and the seen-sets only grow. *)
Definition og_extends (st st' : og_state) : Prop :=
  (∃ later, og_ret_str st' = og_ret_str st ++ later)
  ∧ og_addresses st ⊆ og_addresses st'
  ∧ og_ports st ⊆ og_ports st'.

(** What one term asks for: the token of its first IPv4 source address,
    the token of its first IPv4 destination address, and its ports. *)
Definition term_groups_seen (term : PolicyTerm) (st : og_state) : Prop :=
  (∀ a0 addrs,
     GetAddressOfVersion (term_source_address term) 4 = a0 :: addrs →
     parent_token a0 ∈ og_addresses st)
  ∧ (∀ a0 addrs,
       GetAddressOfVersion (term_destination_address term) 4 = a0 :: addrs →
       parent_token a0 ∈ og_addresses st)
  ∧ (∀ lo hi,
       In (Some (lo, hi)) (term_source_port term ++ term_destination_port term) →
       port_key lo hi ∈ og_ports st).

(** No entry of a verbatim list names the platform ['cisco']. *)
Definition no_cisco_entry (verbatim : list (string * string)) : Prop :=
  Forall (fun entry => fst entry ≠ "cisco") verbatim.

(** The raw texts of the entries that name the platform ['cisco'], in the
    order of the list. *)
Definition cisco_texts (verbatim : list (string * string)) : list string :=
  map snd (List.filter (fun entry => String.eqb (fst entry) "cisco") verbatim).

(** The address family a renderer built with [af] renders for: 4 unless
    [af] is 6. *)
Definition requested_family (af : Z) : Z := if af =? 6 then 6 else 4.

(** The effective addresses of one side of a term: ['any'] when the term
    has no address on that side; otherwise its addresses of the requested
    family, less the exclusions of that family when there are any. *)
Definition effective_addresses
    (ExcludeAddrs : list Address → list Address → list Address)
    (af : Z) (addrs excl : list Address) : list addr_arg :=
  match addrs with
  | [] => [AnyAddr]
  | _ :: _ =>
      let of_family := fun a => version_of (addr_family a) =? af in
      match List.filter of_family excl with
      | [] => map AddrObj (List.filter of_family addrs)
      | (_ :: _) as excluded =>
          map AddrObj (ExcludeAddrs (List.filter of_family addrs) excluded)
      end
  end.

(** The effective port ranges: the one empty range when the term has
    none. *)
Definition effective_ports (ports : list port) : list port :=
  match ports with
  | [] => [None]
  | _ :: _ => ports
  end.

(** The effective protocols: ['ip'] when the term has none, otherwise
    each protocol of the term after [FixupProtocol]. *)
Definition effective_protocols (getprotobyname : string → option Z)
    (protocols : list proto) : list proto :=
  match protocols with
  | [] => [PName "ip"]
  | _ :: _ => map (FixupProtocol getprotobyname) protocols
  end.

(** The combinations of source address, destination address, source port,
    destination port and protocol; the protocol changes first, the source
    address last. *)
Definition combinations_of (sources destinations : list addr_arg)
    (sports dports : list port) (protocols : list proto)
  : list combination :=
  flat_map (fun saddr =>
  flat_map (fun daddr =>
  flat_map (fun sport =>
  flat_map (fun dport =>
  map (fun pr => (saddr, daddr, sport, dport, pr)) protocols)
    dports) sports) destinations) sources.

(** The combinations of one term for the requested family. *)
Definition term_combinations (getprotobyname : string → option Z)
    (ExcludeAddrs : list Address → list Address → list Address)
    (term : PolicyTerm) (af : Z) : list combination :=
  combinations_of
    (effective_addresses ExcludeAddrs (requested_family af)
       (term_source_address term) (term_source_address_exclude term))
    (effective_addresses ExcludeAddrs (requested_family af)
       (term_destination_address term)
       (term_destination_address_exclude term))
    (effective_ports (term_source_port term))
    (effective_ports (term_destination_port term))
    (effective_protocols getprotobyname (term_protocol term)).

(** The two marker lines at the head of every document. *)
Definition marker_lines : list string := ["! $Id:$"; "! $Date:$"].

(** The remark lines of a header. *)
Definition header_remarks (header : Header) : list string :=
  flat_map (fun comment => map (fun line => "remark " +:+ line)
                             (split_nl comment))
    (header_comment header).

(** The statements that remove and declare an access list. *)
Definition extended_preamble (filter_name : string) : list string :=
  ["no ip access-list extended " +:+ filter_name;
   "ip access-list extended " +:+ filter_name].

Definition standard_preamble (filter_name : string) : list string :=
  ["no ip access-list " +:+ filter_name].

Definition inet6_preamble (filter_name : string) : list string :=
  ["no ipv6 access-list " +:+ filter_name;
   "ipv6 access-list " +:+ filter_name].

(** One access list of a document: the preamble, the remark lines of the
    header, one text for each term, and a closing line break. *)
Definition block (preamble : list string) (header : Header)
    (texts : list string) : list string :=
  preamble ++ header_remarks header ++ texts ++ [nl].

(** The text of each term of a filter, by the renderer of the subtype. *)
Definition extended_texts (getprotobyname : string → option Z)
    (ExcludeAddrs : list Address → list Address → list Address)
    (terms : list PolicyTerm) : list string :=
  map (fun term => Term_str getprotobyname ExcludeAddrs (Term_init term 4))
    terms.

Definition inet6_texts (getprotobyname : string → option Z)
    (ExcludeAddrs : list Address → list Address → list Address)
    (terms : list PolicyTerm) : list string :=
  map (fun term => Term_str getprotobyname ExcludeAddrs (Term_init term 6))
    terms.

Definition standard_texts (filter_name : string) (terms : list PolicyTerm)
  : list string :=
  map (fun term =>
         TermStandard_str {| ts_term := term; ts_filter_name := filter_name;
                             ts_options := [] |})
    terms.

Definition object_group_texts (getprotobyname : string → option Z)
    (filter_name : string) (terms : list PolicyTerm) : list string :=
  map (fun term =>
         ObjectGroupTerm_str getprotobyname
           (ObjectGroupTerm_init term filter_name))
    terms.

(** The group definitions in front of an object-group filter: there are
    none when the filter has no term. *)
Definition group_definitions (terms : list PolicyTerm) : list string :=
  match terms with
  | [] => []
  | _ :: _ => [join nl (ObjectGroup_ret_str terms)]
  end.

(** ** Sample policies *)

(** A term with nothing set but its name, its action and what follows. *)
Definition sample_term (name action : string) (protocol : list proto)
    (destination_port : list port) (options : list string) : PolicyTerm :=
  {| term_name := name; term_comment := []; term_action := action;
     term_protocol := protocol; term_address := [];
     term_source_address := []; term_source_address_exclude := [];
     term_destination_address := [];
     term_destination_address_exclude := [];
     term_source_port := []; term_destination_port := destination_port;
     term_option := options; term_verbatim := []; term_counter := None;
     term_logging := false |}.

(** A header for the platform [platform] with the given filter name and
    options, as a Python caller writes it down: the option words are
    literals. *)
Definition sample_header (platform name : string) (options : list string)
  : Header :=
  {| header_platforms := [platform]; header_target := platform;
     header_comment := []; header_filter_options := map literal options;
     header_filter_name := name |}.

(** The same header as a parser hands it over: the option words are cut
    out of the policy text at run time. *)
Definition parsed_header (platform name : string) (options : list string)
  : Header :=
  {| header_platforms := [platform]; header_target := platform;
     header_comment := []; header_filter_options := map built options;
     header_filter_name := name |}.

(** Stands for [nacaddr.ExcludeAddrs] where no term has an exclusion list,
    so that the renderer never calls it. *)
Definition no_exclusion (addrs _ : list Address) : list Address := addrs.

(** Construct, then render. *)
Definition render (getprotobyname : string → option Z)
    (ExcludeAddrs : list Address → list Address → list Address)
    (pol : Policy) : result string :=
  c ← Cisco_init pol; Cisco_str getprotobyname ExcludeAddrs c.

(** The term with another verbatim list. *)
Definition set_verbatim (term : PolicyTerm) (verbatim : list (string * string))
  : PolicyTerm :=
  {| term_name := term_name term;
     term_comment := term_comment term;
     term_action := term_action term;
     term_protocol := term_protocol term;
     term_address := term_address term;
     term_source_address := term_source_address term;
     term_source_address_exclude := term_source_address_exclude term;
     term_destination_address := term_destination_address term;
     term_destination_address_exclude := term_destination_address_exclude term;
     term_source_port := term_source_port term;
     term_destination_port := term_destination_port term;
     term_option := term_option term;
     term_verbatim := verbatim;
     term_counter := term_counter term;
     term_logging := term_logging term |}.

(** The term with other source addresses. *)
Definition set_source_address (term : PolicyTerm) (addrs : list Address)
  : PolicyTerm :=
  {| term_name := term_name term;
     term_comment := term_comment term;
     term_action := term_action term;
     term_protocol := term_protocol term;
     term_address := term_address term;
     term_source_address := addrs;
     term_source_address_exclude := term_source_address_exclude term;
     term_destination_address := term_destination_address term;
     term_destination_address_exclude := term_destination_address_exclude term;
     term_source_port := term_source_port term;
     term_destination_port := term_destination_port term;
     term_option := term_option term;
     term_verbatim := term_verbatim term;
     term_counter := term_counter term;
     term_logging := term_logging term |}.

(** The term [allow-web] and the filter [test-filter] around it. *)
Definition allow_web : PolicyTerm :=
  sample_term "allow-web" "accept" [PName "tcp"] [Some (80, 80)] [].

Definition test_filter : Header * list PolicyTerm :=
  (sample_header "cisco" "test-filter" ["cisco"; "extended"], [allow_web]).

Definition web_policy : Policy := {| filters := [test_filter] |}.

(** The text rendered for [web_policy], line by line. *)
Definition web_document : list string :=
  [ "! $Id:$"; "! $Date:$";
    "no ip access-list extended test-filter";
    "ip access-list extended test-filter";
    EmptyString; EmptyString;
    "remark allow-web";
    " permit 6 any  any eq 80 ";
    EmptyString; EmptyString ].

(** A second filter, after [test_filter]. *)
Definition second_filter : Header * list PolicyTerm :=
  (sample_header "cisco" "second-filter" ["cisco"; "extended"],
   [sample_term "deny-all" "deny" [] [] []]).

(** A policy for two platforms: the first header names ['cisco'], the
    second ['juniper']. *)
Definition two_platform_policy : Policy :=
  {| filters :=
       [ test_filter;
         (sample_header "juniper" "edge-filter" ["juniper"], [allow_web]) ] |}.

(** Filters named ["50"] of each subtype. *)
Definition filter_50 (subtype : string) : Header * list PolicyTerm :=
  (sample_header "cisco" "50" ["cisco"; subtype], []).

(** A filter named ["50"] without a subtype word, and filters named
    ["50"] whose subtype word comes from a parser. *)
Definition default_filter_50 : Header * list PolicyTerm :=
  (sample_header "cisco" "50" ["cisco"], []).

Definition parsed_filter_50 (subtype : string) : Header * list PolicyTerm :=
  (parsed_header "cisco" "50" ["cisco"; subtype], []).

(** [test_filter] as a parser hands it over. *)
Definition parsed_test_filter : Header * list PolicyTerm :=
  (parsed_header "cisco" "test-filter" ["cisco"; "extended"], [allow_web]).

(** The text rendered for it, line by line. *)
Definition parsed_web_document : list string :=
  [ "! $Id:$"; "! $Date:$";
    EmptyString; EmptyString;
    "remark allow-web";
    " permit 6 any  any eq 80 ";
    EmptyString; EmptyString ].

(** A term whose option list names [established] twice. *)
Definition twice_established : PolicyTerm :=
  sample_term "return-traffic" "accept" [PName "tcp"] []
    ["established"; "established"].

Definition tcp_established : PolicyTerm :=
  sample_term "tcp-return" "accept" [PName "tcp"] [] ["established"].

Definition udp_established : PolicyTerm :=
  sample_term "udp-return" "accept" [PName "udp"] [] ["established"].

(** Two addresses of the group [INTERNAL], one of each family. *)
Definition internal_v4 : Address :=
  {| addr_family := IPv4; ip := "10.0.0.0"; network := "10.0.0.0";
     netmask := "255.0.0.0"; hostmask := "0.255.255.255"; prefixlen := 8;
     numhosts := 16777216; parent_token := "INTERNAL";
     addr_str := "10.0.0.0/8" |}.

Definition internal_v6 : Address :=
  {| addr_family := IPv6; ip := "fd00::"; network := "fd00::";
     netmask := "ff00::"; hostmask := "ff:ffff:ffff:ffff:ffff:ffff:ffff:ffff";
     prefixlen := 8; numhosts := 2 ^ 120; parent_token := "INTERNAL";
     addr_str := "fd00::/8" |}.

(** A term with two source addresses, two destination ports and two
    protocols. *)
Definition multi_term : PolicyTerm :=
  set_source_address
    (sample_term "multi" "accept" [PName "tcp"; PName "udp"]
       [Some (80, 80); Some (8000, 8080)] [])
    [internal_v4; internal_v6].

(** Five terms that share the source token [INTERNAL] and the port pair
    (80, 80). *)
Definition shared_group_terms : list PolicyTerm :=
  map (fun name =>
         set_source_address
           (sample_term name "accept" [PName "tcp"] [Some (80, 80)] [])
           [internal_v4])
    ["t1"; "t2"; "t3"; "t4"; "t5"].

(** [allow_web] with a verbatim entry for another platform, and with one
    for this platform. *)
Definition allow_web_juniper : PolicyTerm :=
  set_verbatim allow_web [("juniper", "then accept;")].

Definition allow_web_cisco : PolicyTerm :=
  set_verbatim allow_web [("cisco", " permit tcp any any eq www")].

(** A standard filter named ["50"] whose one term carries a /24 address
    and nothing else. *)
Definition office_net : Address :=
  {| addr_family := IPv4; ip := "192.168.1.0"; network := "192.168.1.0";
     netmask := "255.255.255.0"; hostmask := "0.0.0.255"; prefixlen := 24;
     numhosts := 256; parent_token := "OFFICE";
     addr_str := "192.168.1.0/24" |}.

Definition standard_50_policy : Policy :=
  {| filters :=
       [(sample_header "cisco" "50" ["cisco"; "standard"],
         [ {| term_name := "office"; term_comment := [];
              term_action := "accept"; term_protocol := [];
              term_address := [office_net];
              term_source_address := []; term_source_address_exclude := [];
              term_destination_address := [];
              term_destination_address_exclude := [];
              term_source_port := []; term_destination_port := [];
              term_option := []; term_verbatim := [];
              term_counter := None; term_logging := false |} ])] |}.

(** ** Further vocabulary *)

(** The characters of a string. *)
Fixpoint chars (s : string) : list ascii :=
  match s with
  | EmptyString => []
  | String c s' => c :: chars s'
  end.

Definition newline : ascii := ascii_of_nat 10.

(** The term with another action. *)
Definition set_action (term : PolicyTerm) (action : string) : PolicyTerm :=
  {| term_name := term_name term;
     term_comment := term_comment term;
     term_action := action;
     term_protocol := term_protocol term;
     term_address := term_address term;
     term_source_address := term_source_address term;
     term_source_address_exclude := term_source_address_exclude term;
     term_destination_address := term_destination_address term;
     term_destination_address_exclude := term_destination_address_exclude term;
     term_source_port := term_source_port term;
     term_destination_port := term_destination_port term;
     term_option := term_option term;
     term_verbatim := term_verbatim term;
     term_counter := term_counter term;
     term_logging := term_logging term |}.

(** How many options of the term begin with [established]. *)
Definition established_count (term : PolicyTerm) : nat :=
  length (List.filter (startswith "established") (term_option term)).

(** The groups a term asks the collector for are defined in [lines]
    already. *)
Definition groups_defined (term : PolicyTerm) (lines : list string) : Prop :=
  (∀ a0 addrs,
     GetAddressOfVersion (term_source_address term) 4 = a0 :: addrs →
     In (address_group_header (parent_token a0)) lines)
  ∧ (∀ a0 addrs,
       GetAddressOfVersion (term_destination_address term) 4 = a0 :: addrs →
       In (address_group_header (parent_token a0)) lines)
  ∧ (∀ lo hi,
       In (Some (lo, hi)) (term_source_port term ++ term_destination_port term) →
       In (port_group_header (port_key lo hi)) lines).

(** The line of the standard renderer for one IPv4 address. *)
Definition standard_line (filter_name : string) (t : PolicyTerm)
    (addr : Address) : string :=
  "access-list " +:+ filter_name +:+ " "
  +:+ str_opt (dict_get _ACTION_TABLE (term_action t)) +:+ " "
  +:+ (if prefixlen addr =? 32 then ip addr
       else network addr +:+ " " +:+ hostmask addr).

(** The lines one pass over a filter adds to an empty [target]. *)
Definition pass_lines (getprotobyname : string → option Z)
    (ExcludeAddrs : list Address → list Address → list Address)
    (header : Header) (terms : list PolicyTerm) (filter_type : pystr)
  : result (list string) :=
  '(target, _) ←
    render_filter_type getprotobyname ExcludeAddrs header terms
      (header_filter_name header) ([], ObjectGroup_init) filter_type;
  Ok target.

(** The length of a list the loops run over: the list, or one default
    element when the list is empty. *)
Definition loop_length {A} (l : list A) : nat := Nat.max 1 (length l).

(** A mixed filter and the same filter as extended and as inet6. *)
Definition dual_stack_header (subtype : string) : Header :=
  sample_header "cisco" "edge" ["cisco"; subtype].

(** A term with source addresses of the family IPv6 only. *)
Definition v6_only_term : PolicyTerm :=
  set_source_address
    (sample_term "v6-only" "accept" [PName "tcp"] [Some (22, 22)] [])
    [internal_v6].

(** The term of [standard_50_policy], with a second, IPv6 address. *)
Definition office_term : PolicyTerm :=
  {| term_name := "office"; term_comment := [];
     term_action := "accept"; term_protocol := [];
     term_address := [office_net; internal_v6];
     term_source_address := []; term_source_address_exclude := [];
     term_destination_address := [];
     term_destination_address_exclude := [];
     term_source_port := []; term_destination_port := [];
     term_option := []; term_verbatim := [];
     term_counter := None; term_logging := false |}.

(** ** Properties *)

(** *** [Cisco.__init__] *)

Lemma str_in_true x l : str_in x l = true ↔ In x l.
Proof.
  unfold str_in. rewrite existsb_exists. split.
  - intros (y & Hin & Heq). apply String.eqb_eq in Heq. by subst.
  - intros Hin. exists x. split; [done|]. apply String.eqb_refl.
Qed.

Lemma check_headers_result hs :
  check_headers hs = Raise NoCiscoPolicyError ∨ check_headers hs = Ok ().
Proof.
  induction hs as [|h hs IH]; simpl; [by right|].
  destruct (str_in _ _); simpl; auto.
Qed.

Lemma check_headers_raises_iff hs :
  check_headers hs = Raise NoCiscoPolicyError ↔
  ∃ h, In h hs ∧ ¬ In "cisco" (header_platforms h).
Proof.
  induction hs as [|h hs IH]; simpl.
  - split; [discriminate|]. by intros (h & [] & _).
  - destruct (str_in _ _) eqn:E; simpl.
    + rewrite IH. apply str_in_true in E. split.
      * intros (h' & Hin & Hn). eauto.
      * intros (h' & [-> | Hin] & Hn); [done | eauto].
    + split; [|done]. intros _. exists h. split; [by left|].
      rewrite <- str_in_true. by rewrite E.
Qed.

(** C2 (as the code has it): construction raises [NoCiscoPolicyError]
    exactly when some header of the policy does not name the platform
    ['cisco'], so every header has to name it; no other error can come out
    of construction, and when it is raised no [Cisco] object exists that
    could be rendered. *)
Theorem Cisco_init_raises_iff pol :
  (Cisco_init pol = Raise NoCiscoPolicyError ↔
   ∃ h, In h (headers pol) ∧ ¬ In "cisco" (header_platforms h))
  ∧ ((∀ h, In h (headers pol) → In "cisco" (header_platforms h)) ↔
     ∃ c, Cisco_init pol = Ok c)
  ∧ (∀ e, Cisco_init pol = Raise e → e = NoCiscoPolicyError).
Proof.
  pose proof (check_headers_raises_iff (headers pol)) as Hiff.
  unfold Cisco_init.
  destruct (check_headers_result (headers pol)) as [E | E]; rewrite E; simpl.
  - split; [|split].
    + split; [intros _; by apply Hiff | done].
    + apply Hiff in E as (h & Hin & Hn). split.
      * intros Hall. destruct Hn. by apply Hall.
      * by intros (c & Hc).
    + intros e [= <-]. done.
  - split; [|split].
    + split; [done|]. intros H. apply Hiff in H. congruence.
    + split; [eauto|]. intros _ h Hin.
      destruct (in_dec String.string_dec "cisco" (header_platforms h)) as [|Hn];
        [done|].
      assert (check_headers (headers pol) = Raise NoCiscoPolicyError)
        by (apply Hiff; eauto).
      congruence.
    + intros e. discriminate.
Qed.

(** *** Object groups *)

Lemma occurrences_app line l1 l2 :
  occurrences line (l1 ++ l2) = (occurrences line l1 + occurrences line l2)%nat.
Proof. apply count_occ_app. Qed.

Lemma occurrences_none line l :
  (∀ x, In x l → x ≠ line) → occurrences line l = 0%nat.
Proof.
  intros H. apply count_occ_not_In. intros Hin. by apply (H line).
Qed.

Lemma occurrences_one line x :
  occurrences line [x] = if decide (x = line) then 1%nat else 0%nat.
Proof.
  unfold occurrences. cbn [count_occ].
  destruct (String.string_dec x line), (decide (x = line)); congruence.
Qed.

Lemma address_group_header_inj t1 t2 :
  address_group_header t1 = address_group_header t2 → t1 = t2.
Proof. apply (inj (String.append _)). Qed.

Lemma port_group_header_inj k1 k2 :
  port_group_header k1 = port_group_header k2 → k1 = k2.
Proof. apply (inj (String.append _)). Qed.

Ltac other_line :=
  let H := fresh in
  intros H; cbv [address_group_header port_group_header String.append nl] in H;
  discriminate H.

Lemma address_port_header t k : address_group_header t ≠ port_group_header k.
Proof. other_line. Qed.

Lemma exit_not_address t : "exit" +:+ nl ≠ address_group_header t.
Proof. other_line. Qed.

Lemma exit_not_port k : "exit" +:+ nl ≠ port_group_header k.
Proof. other_line. Qed.

Lemma indented_not_address s t : " " +:+ s ≠ address_group_header t.
Proof. other_line. Qed.

Lemma indented_not_port s k : " " +:+ s ≠ port_group_header k.
Proof. other_line. Qed.

Lemma seen_insert_same (x : string) (X : gset string) :
  (if decide (x ∈ {[x]} ∪ X) then 1%nat else 0%nat) = 1%nat.
Proof. rewrite decide_True; [done | set_solver]. Qed.

Lemma seen_insert_other (x y : string) (X : gset string) :
  x ≠ y →
  (if decide (y ∈ {[x]} ∪ X) then 1%nat else 0%nat)
  = (if decide (y ∈ X) then 1%nat else 0%nat).
Proof.
  intros Hne. destruct (decide (y ∈ X)) as [Hin|Hout].
  - rewrite decide_True; [done | set_solver].
  - rewrite decide_False; [done|].
    intros [Heq%elem_of_singleton | Hin]%elem_of_union; congruence.
Qed.

Lemma og_start_invariant : og_invariant og_start.
Proof.
  split; intros x; cbn [og_start og_addresses og_ports og_ret_str];
    rewrite occurrences_one;
    destruct (decide (nl = _)) as [E|_]; try (exfalso; revert E; other_line);
    by destruct (decide (x ∈ ∅)) as [?%not_elem_of_empty|].
Qed.

Lemma address_lines_no_header (addrs : list Address) line :
  (∀ s, " " +:+ s ≠ line) →
  occurrences line
    (map (fun addr => " " +:+ ip addr +:+ " " +:+ netmask addr) addrs) = 0%nat.
Proof.
  intros H. apply occurrences_none. intros x (addr & <- & _)%in_map_iff.
  apply H.
Qed.

Lemma og_address_group_invariant addrs st :
  og_invariant st → og_invariant (og_address_group addrs st).
Proof.
  intros [Ha Hp]. unfold og_address_group.
  destruct addrs as [|a0 addrs]; [done|].
  destruct (decide (parent_token a0 ∈ og_addresses st)) as [Hin|Hnew]; [done|].
  split; cbn [og_addresses og_ports og_ret_str].
  - intros token. rewrite !occurrences_app, Ha, occurrences_one.
    rewrite address_lines_no_header by (intros; apply indented_not_address).
    rewrite occurrences_one.
    destruct (decide ("exit" +:+ nl = _)) as [E|_];
      [by apply exit_not_address in E|].
    fold (address_group_header (parent_token a0)).
    destruct (decide (address_group_header (parent_token a0)
                      = address_group_header token)) as [E|Hne].
    + apply address_group_header_inj in E. subst token.
      rewrite seen_insert_same. by rewrite decide_False.
    + rewrite seen_insert_other by congruence. lia.
  - intros key. rewrite !occurrences_app, Hp, occurrences_one.
    rewrite address_lines_no_header by (intros; apply indented_not_port).
    rewrite occurrences_one.
    destruct (decide ("exit" +:+ nl = _)) as [E|_];
      [by apply exit_not_port in E|].
    fold (address_group_header (parent_token a0)).
    destruct (decide (_ = port_group_header key)) as [E|_];
      [by apply address_port_header in E|].
    lia.
Qed.

Lemma og_port_group_invariant st p :
  og_invariant st → og_invariant (og_port_group st p).
Proof.
  intros [Ha Hp]. unfold og_port_group.
  destruct p as [[lo hi]|]; [|done].
  destruct (decide (port_key lo hi ∈ og_ports st)) as [Hin|Hnew]; [done|].
  assert (Hmid : ∀ line, (∀ s, " " +:+ s ≠ line) →
            occurrences line
              [if negb (lo =? hi)
               then " range " +:+ str_int lo +:+ " " +:+ str_int hi
               else " eq " +:+ str_int lo] = 0%nat).
  { intros line Hline. apply occurrences_none. intros x [<- | []].
    destruct (negb _); apply Hline. }
  split; cbn [og_addresses og_ports og_ret_str].
  - intros token. rewrite !occurrences_app, Ha, occurrences_one.
    rewrite Hmid by (intros; apply indented_not_address).
    rewrite occurrences_one.
    destruct (decide ("exit" +:+ nl = _)) as [E|_];
      [by apply exit_not_address in E|].
    fold (port_group_header (port_key lo hi)).
    destruct (decide (_ = address_group_header token)) as [E|_];
      [symmetry in E; by apply address_port_header in E|].
    lia.
  - intros key. rewrite !occurrences_app, Hp, occurrences_one.
    rewrite Hmid by (intros; apply indented_not_port).
    rewrite occurrences_one.
    destruct (decide ("exit" +:+ nl = _)) as [E|_];
      [by apply exit_not_port in E|].
    fold (port_group_header (port_key lo hi)).
    destruct (decide (port_group_header (port_key lo hi)
                      = port_group_header key)) as [E|Hne].
    + apply port_group_header_inj in E. subst key.
      rewrite seen_insert_same. by rewrite decide_False.
    + rewrite seen_insert_other by congruence. lia.
Qed.

Lemma fold_left_invariant {A S} (P : S → Prop) (f : S → A → S) l :
  (∀ s x, P s → P (f s x)) → ∀ s, P s → P (fold_left f l s).
Proof.
  intros Hf. induction l as [|x l IH]; intros s Hs; [done|].
  cbn [fold_left]. apply IH, Hf, Hs.
Qed.

Lemma og_term_invariant st term : og_invariant st → og_invariant (og_term st term).
Proof.
  intros H. unfold og_term.
  apply fold_left_invariant; [apply og_port_group_invariant|].
  by do 2 apply og_address_group_invariant.
Qed.

Lemma og_terms_invariant terms :
  og_invariant (fold_left og_term terms og_start).
Proof.
  apply fold_left_invariant; [apply og_term_invariant | apply og_start_invariant].
Qed.

Lemma og_extends_refl st : og_extends st st.
Proof. split; [exists []; by rewrite app_nil_r | done]. Qed.

Lemma og_extends_trans st1 st2 st3 :
  og_extends st1 st2 → og_extends st2 st3 → og_extends st1 st3.
Proof.
  intros ([l1 E1] & Ha1 & Hp1) ([l2 E2] & Ha2 & Hp2).
  split; [|split; set_solver].
  exists (l1 ++ l2). by rewrite E2, E1, app_assoc.
Qed.

Lemma og_address_group_extends addrs st :
  og_extends st (og_address_group addrs st).
Proof.
  unfold og_address_group. destruct addrs as [|a0 addrs];
    [apply og_extends_refl|].
  destruct (decide _); [apply og_extends_refl|].
  split; cbn [og_addresses og_ports og_ret_str]; [eauto | set_solver].
Qed.

Lemma og_port_group_extends st p : og_extends st (og_port_group st p).
Proof.
  unfold og_port_group. destruct p as [[lo hi]|]; [|apply og_extends_refl].
  destruct (decide _); [apply og_extends_refl|].
  split; cbn [og_addresses og_ports og_ret_str]; [eauto | set_solver].
Qed.

Lemma fold_left_extends {A} (f : og_state → A → og_state) l :
  (∀ s x, og_extends s (f s x)) → ∀ s, og_extends s (fold_left f l s).
Proof.
  intros Hf. induction l as [|x l IH]; intros s; [apply og_extends_refl|].
  cbn [fold_left]. eapply og_extends_trans; [apply Hf | apply IH].
Qed.

Lemma og_term_extends st term : og_extends st (og_term st term).
Proof.
  unfold og_term.
  eapply og_extends_trans; [apply og_address_group_extends|].
  eapply og_extends_trans; [apply og_address_group_extends|].
  apply fold_left_extends, og_port_group_extends.
Qed.

Lemma og_address_group_seen a0 addrs st :
  parent_token a0 ∈ og_addresses (og_address_group (a0 :: addrs) st).
Proof.
  unfold og_address_group. destruct (decide _); [done|].
  cbn [og_addresses]. set_solver.
Qed.

Lemma og_port_group_seen st lo hi :
  port_key lo hi ∈ og_ports (og_port_group st (Some (lo, hi))).
Proof.
  unfold og_port_group. destruct (decide _); [done|].
  cbn [og_ports]. set_solver.
Qed.

Lemma og_ports_seen ports st lo hi :
  In (Some (lo, hi)) ports →
  port_key lo hi ∈ og_ports (fold_left og_port_group ports st).
Proof.
  revert st. induction ports as [|p ports IH]; intros st; [done|].
  intros [-> | Hin]; cbn [fold_left]; [|by apply IH].
  pose proof (fold_left_extends og_port_group ports og_port_group_extends
                (og_port_group st (Some (lo, hi)))) as (_ & _ & Hsub).
  apply Hsub, og_port_group_seen.
Qed.

Lemma og_term_seen st term : term_groups_seen term (og_term st term).
Proof.
  unfold og_term.
  set (st1 := og_address_group _ st).
  set (st2 := og_address_group _ st1).
  pose proof (og_address_group_extends
                (GetAddressOfVersion (term_destination_address term) 4) st1)
    as (_ & Ha12 & _). fold st2 in Ha12.
  pose proof (fold_left_extends og_port_group
                (term_source_port term ++ term_destination_port term)
                og_port_group_extends st2) as (_ & Ha2 & _).
  split; [|split].
  - intros a0 addrs E. apply Ha2, Ha12. unfold st1. rewrite E.
    apply og_address_group_seen.
  - intros a0 addrs E. apply Ha2. unfold st2. rewrite E.
    apply og_address_group_seen.
  - intros lo hi Hin. by apply og_ports_seen.
Qed.

Lemma term_groups_seen_extends term st st' :
  og_extends st st' → term_groups_seen term st → term_groups_seen term st'.
Proof.
  intros (_ & Ha & Hp) (H1 & H2 & H3).
  split; [|split]; intros; [apply Ha | apply Ha | apply Hp]; eauto.
Qed.

Lemma og_terms_seen terms st term :
  In term terms → term_groups_seen term (fold_left og_term terms st).
Proof.
  revert st. induction terms as [|t terms IH]; intros st; [done|].
  intros [-> | Hin]; cbn [fold_left]; [|by apply IH].
  eapply term_groups_seen_extends; [|apply og_term_seen].
  apply fold_left_extends, og_term_extends.
Qed.

(** C6: in the group definitions rendered for any sequence of collected
    terms, no parent token has more than one [object-group ip address]
    header and no (low, high) pair has more than one [object-group ip port]
    header, however many terms share them; a token or pair that some term
    asks for has exactly one; and the output for the first terms of the
    sequence is the beginning of the output for the whole sequence, so the
    groups stand in the order in which the terms bring them up. *)
Theorem ObjectGroup_groups_once terms :
  (∀ token,
     (occurrences (address_group_header token) (ObjectGroup_ret_str terms) ≤ 1)%nat)
  ∧ (∀ lo hi,
       (occurrences (port_group_header (port_key lo hi))
          (ObjectGroup_ret_str terms) ≤ 1)%nat)
  ∧ (∀ term, In term terms →
       (∀ a0 addrs,
          GetAddressOfVersion (term_source_address term) 4 = a0 :: addrs →
          occurrences (address_group_header (parent_token a0))
            (ObjectGroup_ret_str terms) = 1%nat)
       ∧ (∀ a0 addrs,
            GetAddressOfVersion (term_destination_address term) 4 = a0 :: addrs →
            occurrences (address_group_header (parent_token a0))
              (ObjectGroup_ret_str terms) = 1%nat)
       ∧ (∀ lo hi,
            In (Some (lo, hi))
              (term_source_port term ++ term_destination_port term) →
            occurrences (port_group_header (port_key lo hi))
              (ObjectGroup_ret_str terms) = 1%nat))
  ∧ (∀ first later,
       terms = first ++ later →
       ∃ lines, ObjectGroup_ret_str terms = ObjectGroup_ret_str first ++ lines).
Proof.
  unfold ObjectGroup_ret_str.
  destruct (og_terms_invariant terms) as [Ha Hp].
  split; [|split; [|split]].
  - intros token. rewrite Ha. by destruct (decide _); lia.
  - intros lo hi. rewrite Hp. by destruct (decide _); lia.
  - intros term Hin.
    destruct (og_terms_seen terms og_start term Hin) as (H1 & H2 & H3).
    split; [|split].
    + intros a0 addrs E. rewrite Ha. destruct (decide _) as [|Hn]; [done|].
      destruct Hn. eauto.
    + intros a0 addrs E. rewrite Ha. destruct (decide _) as [|Hn]; [done|].
      destruct Hn. eauto.
    + intros lo hi Hport. rewrite Hp. destruct (decide _) as [|Hn]; [done|].
      destruct Hn. eauto.
  - intros first later ->. rewrite fold_left_app.
    apply (fold_left_extends og_term later og_term_extends).
Qed.

(** *** Object groups: what is defined is not defined again *)

Lemma og_address_seen_of_line st token :
  og_invariant st →
  In (address_group_header token) (og_ret_str st) →
  token ∈ og_addresses st.
Proof.
  intros [Ha _] Hin.
  apply (count_occ_In String.string_dec) in Hin.
  fold (occurrences (address_group_header token) (og_ret_str st)) in Hin.
  rewrite Ha in Hin. destruct (decide (token ∈ og_addresses st)); [done | lia].
Qed.

Lemma og_port_seen_of_line st key :
  og_invariant st →
  In (port_group_header key) (og_ret_str st) →
  key ∈ og_ports st.
Proof.
  intros [_ Hp] Hin.
  apply (count_occ_In String.string_dec) in Hin.
  fold (occurrences (port_group_header key) (og_ret_str st)) in Hin.
  rewrite Hp in Hin. destruct (decide (key ∈ og_ports st)); [done | lia].
Qed.

Lemma og_address_line_of_seen st token :
  og_invariant st →
  token ∈ og_addresses st →
  In (address_group_header token) (og_ret_str st).
Proof.
  intros [Ha _] Hin. apply (count_occ_In String.string_dec).
  fold (occurrences (address_group_header token) (og_ret_str st)).
  rewrite Ha, decide_True by done. lia.
Qed.

Lemma og_port_line_of_seen st key :
  og_invariant st →
  key ∈ og_ports st →
  In (port_group_header key) (og_ret_str st).
Proof.
  intros [_ Hp] Hin. apply (count_occ_In String.string_dec).
  fold (occurrences (port_group_header key) (og_ret_str st)).
  rewrite Hp, decide_True by done. lia.
Qed.

Lemma og_address_group_same addrs st :
  (∀ a0 rest, addrs = a0 :: rest → parent_token a0 ∈ og_addresses st) →
  og_address_group addrs st = st.
Proof.
  intros H. unfold og_address_group. destruct addrs as [|a0 rest]; [done|].
  rewrite decide_True; [done | by eapply H].
Qed.

Lemma og_port_groups_same ports st :
  (∀ lo hi, In (Some (lo, hi)) ports → port_key lo hi ∈ og_ports st) →
  fold_left og_port_group ports st = st.
Proof.
  induction ports as [|p ports IH]; intros H; [done|].
  cbn [fold_left].
  assert (og_port_group st p = st) as ->.
  { unfold og_port_group. destruct p as [[lo hi]|]; [|done].
    rewrite decide_True; [done|]. apply H. by left. }
  apply IH. intros lo hi Hin. apply H. by right.
Qed.

Lemma og_term_same st term :
  og_invariant st →
  groups_defined term (og_ret_str st) →
  og_term st term = st.
Proof.
  intros Hinv (Hs & Hd & Hp). unfold og_term.
  rewrite (og_address_group_same
             (GetAddressOfVersion (term_source_address term) 4) st).
  2:{ intros a0 rest E. eapply og_address_seen_of_line; eauto. }
  rewrite (og_address_group_same
             (GetAddressOfVersion (term_destination_address term) 4) st).
  2:{ intros a0 rest E. eapply og_address_seen_of_line; eauto. }
  apply og_port_groups_same.
  intros lo hi Hin. eapply og_port_seen_of_line; eauto.
Qed.

(** X5: the group definitions are not written again: a further term all of
    whose groups - the token of its first IPv4 source address, that of its
    first IPv4 destination address, its port pairs - have a header in the
    output already adds no line, whatever addresses it lists under these
    tokens; a term that is in the sequence already is such a term. *)
Theorem ObjectGroup_defined_groups_kept terms term :
  (groups_defined term (ObjectGroup_ret_str terms) →
   ObjectGroup_ret_str (terms ++ [term]) = ObjectGroup_ret_str terms)
  ∧ (In term terms → groups_defined term (ObjectGroup_ret_str terms)).
Proof.
  unfold ObjectGroup_ret_str.
  pose proof (og_terms_invariant terms) as Hinv. split.
  - intros Hdef. rewrite fold_left_app. cbn [fold_left].
    by rewrite og_term_same.
  - intros Hin.
    destruct (og_terms_seen terms og_start term Hin) as (H1 & H2 & H3).
    split; [|split]; intros.
    + eapply og_address_line_of_seen; eauto.
    + eapply og_address_line_of_seen; eauto.
    + eapply og_port_line_of_seen; eauto.
Qed.

(** *** Port keys *)

Lemma str_int_inj a b : str_int a = str_int b → a = b.
Proof.
  unfold str_int. intros H.
  assert (Hnil : ∀ z, Z.to_int z ≠ Decimal.Pos Decimal.Nil
                      ∧ Z.to_int z ≠ Decimal.Neg Decimal.Nil).
  { intros [|p|p]; cbn [Z.to_int]; split; try discriminate;
      intros [= E]; by apply DecimalPos.Unsigned.to_uint_nonnil in E. }
  apply (f_equal NilZero.int_of_string) in H.
  rewrite !NilZero.isi in H by apply Hnil.
  injection H as H.
  rewrite <- (DecimalZ.of_to a), <- (DecimalZ.of_to b). by rewrite H.
Qed.

Lemma digits_no_dash d : ¬ In "-"%char (chars (NilEmpty.string_of_uint d)).
Proof.
  induction d; cbn [NilEmpty.string_of_uint chars In];
    [tauto | intros [E|E]; [discriminate E | tauto] ..].
Qed.

Lemma str_int_no_dash z : 0 ≤ z → ¬ In "-"%char (chars (str_int z)).
Proof.
  unfold str_int. destruct z as [|p|p]; [| |lia]; intros _.
  - cbn. intros [E|[]]. discriminate E.
  - cbn [Z.to_int NilZero.string_of_int]. unfold NilZero.string_of_uint.
    destruct (Pos.to_uint p) eqn:E; try apply digits_no_dash.
    by apply DecimalPos.Unsigned.to_uint_nonnil in E.
Qed.

Lemma string_app_cons c s t : String c s +:+ t = String c (s +:+ t).
Proof. reflexivity. Qed.

Lemma string_app_nil_l t : EmptyString +:+ t = t.
Proof. reflexivity. Qed.

Lemma split_at_dash s1 s2 r1 r2 :
  ¬ In "-"%char (chars s1) → ¬ In "-"%char (chars s2) →
  s1 +:+ String "-" r1 = s2 +:+ String "-" r2 →
  s1 = s2 ∧ r1 = r2.
Proof.
  revert s2. induction s1 as [|c s1 IH]; intros [|c' s2] H1 H2 E;
    rewrite ?string_app_cons, ?string_app_nil_l in E.
  - by injection E as ->.
  - injection E as <- _. destruct H2. by left.
  - injection E as -> _. destruct H1. by left.
  - injection E as -> E.
    destruct (IH s2) as [-> ->]; [| |exact E|done].
    + intros Hin. apply H1. by right.
    + intros Hin. apply H2. by right.
Qed.

(** X6: the computed name of a port group tells the port pair: two pairs with
    lower ports that are not negative have the same key, and so the same
    [object-group ip port] header, only if they are the same pair. *)
Theorem port_key_inj lo hi lo' hi' :
  0 ≤ lo → 0 ≤ lo' →
  port_group_header (port_key lo hi) = port_group_header (port_key lo' hi') →
  lo = lo' ∧ hi = hi'.
Proof.
  intros Hlo Hlo' E%port_group_header_inj. unfold port_key in E.
  change (str_int lo +:+ String "-" (str_int hi)
          = str_int lo' +:+ String "-" (str_int hi')) in E.
  apply split_at_dash in E as [E1 E2]; try by apply str_int_no_dash.
  split; by apply str_int_inj.
Qed.

(** *** Remark lines *)

Lemma chars_rev_app s1 s2 :
  chars (String.rev_app s1 s2) = rev (chars s1) ++ chars s2.
Proof.
  revert s2. induction s1 as [|c s1 IH]; intros s2; [done|].
  cbn [String.rev_app chars rev]. rewrite IH. cbn [chars].
  by rewrite <- app_assoc.
Qed.

Lemma split_go_pieces sep cur s :
  ¬ In sep (chars cur) →
  Forall (fun piece => ¬ In sep (chars piece)) (split_go sep cur s).
Proof.
  revert cur. induction s as [|c s IH]; intros cur Hcur; cbn [split_go].
  - constructor; [|constructor]. unfold String.rev.
    rewrite chars_rev_app, app_nil_r. by rewrite <- in_rev.
  - destruct (Ascii.eqb_spec c sep) as [->|Hne].
    + constructor; [|apply IH; intros []].
      unfold String.rev. rewrite chars_rev_app, app_nil_r.
      by rewrite <- in_rev.
    + apply IH. cbn [chars]. intros [E|Hin]; [by subst | done].
Qed.

Lemma length_split_go sep cur s :
  length (split_go sep cur s)
  = S (count_occ ascii_dec (chars s) sep).
Proof.
  revert cur. induction s as [|c s IH]; intros cur; [done|].
  cbn [split_go chars count_occ].
  destruct (Ascii.eqb_spec c sep) as [->|Hne].
  - destruct (ascii_dec sep sep); [|done]. cbn [length]. by rewrite IH.
  - destruct (ascii_dec c sep); [done|]. apply IH.
Qed.

Lemma take_str_length n s : (String.length (take_str n s) ≤ n)%nat.
Proof.
  revert s. induction n as [|n IH]; intros [|c s]; cbn; try lia.
  specialize (IH s). lia.
Qed.

Lemma take_str_chars n s c : In c (chars (take_str n s)) → In c (chars s).
Proof.
  revert s. induction n as [|n IH]; intros [|x s]; cbn; try tauto.
  intros [E|Hin]; [by left | right; by apply IH].
Qed.

(** X12: the extended renderer starts a term with an empty line and the remark
    with its name; then each line of each comment gives one remark line,
    cut after 100 characters, so that no remark line made from a comment is
    longer than ["remark "] and 100 characters or holds a line break, and a
    comment with [k] line breaks gives [k + 1] remark lines. *)
Theorem Term_remark_lines term :
  ∃ comment_lines,
    Term_remarks term
    = nl :: ("remark " +:+ term_name term) :: comment_lines
    ∧ Forall (fun line =>
                ∃ piece, line = "remark " +:+ piece
                         ∧ (String.length piece ≤ 100)%nat
                         ∧ ¬ In newline (chars piece))
        comment_lines
    ∧ length comment_lines
      = list_sum (map (fun comment =>
                         S (count_occ ascii_dec (chars comment) newline))
                    (term_comment term)).
Proof.
  unfold Term_remarks. eexists. split; [reflexivity|].
  induction (term_comment term) as [|comment comments [IH1 IH2]];
    [split; [constructor | done]|].
  cbn [flat_map map list_sum]. split.
  - apply Forall_app. split; [|exact IH1].
    apply Forall_map.
    apply (Forall_impl _ _ _
             (split_go_pieces newline EmptyString comment
                (fun H : In newline [] => H))).
    intros piece Hpiece.
    exists (take_str 100 piece). split; [done|].
    split; [apply take_str_length|].
    intros Hin. by apply Hpiece, (take_str_chars 100).
  - rewrite length_app, length_map, IH2. unfold split_nl.
    by rewrite length_split_go.
Qed.

Section Properties.

Variable getprotobyname : string → option Z.
Variable ExcludeAddrs : list Address → list Address → list Address.

(** *** [FixupProtocol] *)

Lemma FixupProtocol_number n :
  FixupProtocol getprotobyname (PNum n) = PNum n.
Proof. reflexivity. Qed.

Lemma FixupProtocol_known s n :
  getprotobyname (lower s) = Some n →
  FixupProtocol getprotobyname (PName s) = PNum n.
Proof. intros H. unfold FixupProtocol. by rewrite H. Qed.

Lemma FixupProtocol_unknown s :
  getprotobyname (lower s) = None →
  FixupProtocol getprotobyname (PName s) = PName s.
Proof. intros H. unfold FixupProtocol. by rewrite H. Qed.

(** Whatever the database, the result of [FixupProtocol] on a name is the
    name itself exactly when the lookup fails. *)
Lemma FixupProtocol_name_unchanged_iff s :
  FixupProtocol getprotobyname (PName s) = PName s ↔
  getprotobyname (lower s) = None.
Proof.
  unfold FixupProtocol. destruct (getprotobyname (lower s)); split; congruence.
Qed.

(** *** [TermStandard.__init__] *)

Lemma nonempty_true {A} (l : list A) : nonempty l = true ↔ l ≠ [].
Proof. destruct l; simpl; split; congruence. Qed.

Lemma nonempty_false {A} (l : list A) : nonempty l = false ↔ l = [].
Proof. destruct l; simpl; split; congruence. Qed.

Lemma is_set_true {A} (o : option A) : is_set o = true ↔ o ≠ None.
Proof. destruct o; simpl; split; congruence. Qed.

Lemma TermStandard_init_cases term filter_name :
  TermStandard_init term filter_name = Raise StandardAclTermError
  ∨ TermStandard_init term filter_name
    = Ok {| ts_term := term; ts_filter_name := filter_name; ts_options := [] |}.
Proof.
  unfold TermStandard_init.
  repeat match goal with
         | |- context [if ?b then _ else _] => destruct b
         end; auto.
Qed.

(** C5: constructing a standard term raises [StandardAclTermError] exactly
    when the term carries a protocol, an address or address exclusion, an
    option, a port, a counter or the logging flag; each of the six alone
    is enough, and the error reaches the caller of the assembler's term
    loop before the term has produced any text.  With all six unset the
    constructor returns the object. *)
Theorem TermStandard_init_raises_iff term filter_name :
  (TermStandard_init term filter_name = Raise StandardAclTermError ↔
   carries_protocol term ∨ carries_address term ∨ carries_option term
   ∨ carries_port term ∨ carries_counter term ∨ carries_logging term)
  ∧ (TermStandard_init term filter_name
     = Ok {| ts_term := term; ts_filter_name := filter_name; ts_options := [] |}
     ↔ ¬ (carries_protocol term ∨ carries_address term ∨ carries_option term
          ∨ carries_port term ∨ carries_counter term ∨ carries_logging term))
  ∧ (∀ st,
       TermStandard_init term filter_name = Raise StandardAclTermError →
       add_term getprotobyname ExcludeAddrs "standard" filter_name st term
       = Raise StandardAclTermError).
Proof.
  assert (Hiff : TermStandard_init term filter_name = Raise StandardAclTermError ↔
   carries_protocol term ∨ carries_address term ∨ carries_option term
   ∨ carries_port term ∨ carries_counter term ∨ carries_logging term).
  { unfold TermStandard_init, carries_protocol, carries_address,
      carries_option, carries_port, carries_counter, carries_logging.
    destruct (term_protocol term), (term_source_address term),
      (term_source_address_exclude term), (term_destination_address term),
      (term_destination_address_exclude term), (term_option term),
      (term_source_port term), (term_destination_port term),
      (term_counter term), (term_logging term); simpl;
      split; intros H; try discriminate H; try reflexivity;
      try (exfalso; clear - H; intuition congruence);
      intuition congruence. }
  split; [exact Hiff|]. split.
  - rewrite <- Hiff.
    destruct (TermStandard_init_cases term filter_name) as [-> | ->];
      split; intros H; try discriminate H; try reflexivity; congruence.
  - intros [target obj_target] Hraise. unfold add_term. simpl.
    by rewrite Hraise.
Qed.

(** *** [Cisco.__str__]: the loop over the filters *)

Lemma is_literal w lit : is_ w lit = true ↔ w = literal lit.
Proof.
  unfold is_, literal. destruct w as [text interned]. cbn.
  rewrite andb_true_iff, String.eqb_eq. split.
  - by intros [-> ->].
  - by intros [= -> ->].
Qed.

Lemma is_other w lit : str_text w ≠ lit → is_ w lit = false.
Proof.
  unfold is_. intros H%String.eqb_neq. by rewrite H.
Qed.

Lemma target_header_lines : target_header = marker_lines.
Proof. reflexivity. Qed.

Lemma assemble_no_groups target :
  assemble (target, ObjectGroup_init) = join nl (marker_lines ++ target).
Proof. reflexivity. Qed.

Lemma filter_body_unfold header terms st :
  filter_body getprotobyname ExcludeAddrs (header, terms) st =
  if negb (str_in (str_text (resolved_filter_type header)) good_filters)
  then Raise UnsupportedCiscoAccessListError
  else
    match for_r (render_filter_type getprotobyname ExcludeAddrs header terms
                   (header_filter_name header))
            (filter_list (resolved_filter_type header)) st with
    | Ok st' => Ok (Return (assemble st'))
    | Raise e => Raise e
    end.
Proof.
  unfold filter_body. destruct (negb _); [done|].
  destruct (for_r _ _ _) as [[target obj_target]|e]; [|done].
  unfold assemble. simpl. by destruct (ObjectGroup_valid obj_target).
Qed.

(** The body never falls through to the next iteration. *)
Lemma filter_body_leaves f st :
  (∃ doc, filter_body getprotobyname ExcludeAddrs f st = Ok (Return doc))
  ∨ (∃ e, filter_body getprotobyname ExcludeAddrs f st = Raise e).
Proof.
  destruct f as [header terms]. rewrite filter_body_unfold.
  destruct (negb _); [right; eauto|].
  destruct (for_r _ _ _); [left | right]; eauto.
Qed.

Lemma Cisco_str_cons f rest :
  Cisco_str getprotobyname ExcludeAddrs {| policy := {| filters := f :: rest |} |}
  = match filter_body getprotobyname ExcludeAddrs f ([], ObjectGroup_init) with
    | Ok (Return doc) => Ok doc
    | Ok (Continue _) => Raise TypeError
    | Raise e => Raise e
    end.
Proof.
  unfold Cisco_str. cbn [policy filters for_each_r].
  destruct (filter_body_leaves f ([], ObjectGroup_init)) as [[doc ->]|[e ->]];
    reflexivity.
Qed.

(** *** The passes over a filter *)

Ltac eval_eqb :=
  repeat match goal with
         | |- context [String.eqb ?a ?b] =>
             let v := eval vm_compute in (String.eqb a b) in
             lazymatch v with
             | true => change (String.eqb a b) with true
             | false => change (String.eqb a b) with false
             end
         end.

Lemma numbered_1_99_test filter_name :
  isdigit filter_name
  && ((1 <=? int filter_name) && (int filter_name <=? 99)) = true
  ↔ numbered_1_99 filter_name.
Proof.
  unfold numbered_1_99. rewrite !andb_true_iff, !Z.leb_le. tauto.
Qed.

Lemma numbered_1_99_test_false filter_name :
  isdigit filter_name
  && ((1 <=? int filter_name) && (int filter_name <=? 99)) = false
  ↔ ¬ numbered_1_99 filter_name.
Proof.
  rewrite <- numbered_1_99_test. by destruct (_ && _).
Qed.

Lemma add_term_frame ft name pre l obj t :
  add_term getprotobyname ExcludeAddrs ft name (pre ++ l, obj) t
  = match add_term getprotobyname ExcludeAddrs ft name (l, obj) t with
    | Ok (l', obj') => Ok (pre ++ l', obj')
    | Raise e => Raise e
    end.
Proof.
  unfold add_term.
  destruct (String.eqb ft "standard").
  { destruct (TermStandard_init t name); cbn [mbind result_bind];
      [by rewrite app_assoc | done]. }
  destruct (String.eqb ft "extended"); [by rewrite app_assoc|].
  destruct (String.eqb ft "object-group"); [by rewrite app_assoc|].
  destruct (String.eqb ft "inet6"); [by rewrite app_assoc | done].
Qed.

Lemma add_term_collector ft name l obj t l' obj' :
  add_term getprotobyname ExcludeAddrs ft name (l, obj) t = Ok (l', obj') →
  obj' = if String.eqb ft "object-group" then AddTerm obj t else obj.
Proof.
  unfold add_term.
  destruct (String.eqb_spec ft "standard") as [->|_].
  { change (String.eqb "standard" "object-group") with false.
    destruct (TermStandard_init t name); cbn [mbind result_bind];
      intros H; [by injection H as _ <- | discriminate H]. }
  destruct (String.eqb_spec ft "extended") as [->|_].
  { change (String.eqb "extended" "object-group") with false.
    intros H. by injection H as _ <-. }
  destruct (String.eqb ft "object-group");
    [intros H; by injection H as _ <-|].
  destruct (String.eqb ft "inet6"); intros H; by injection H as _ <-.
Qed.

Lemma for_r_frame {A} (body : assembly → A → result assembly) :
  (∀ pre l obj x,
     body (pre ++ l, obj) x
     = match body (l, obj) x with
       | Ok (l', obj') => Ok (pre ++ l', obj')
       | Raise e => Raise e
       end) →
  ∀ xs pre l obj,
    for_r body xs (pre ++ l, obj)
    = match for_r body xs (l, obj) with
      | Ok (l', obj') => Ok (pre ++ l', obj')
      | Raise e => Raise e
      end.
Proof.
  intros Hbody. induction xs as [|x xs IH]; intros pre l obj; [done|].
  cbn [for_r]. rewrite Hbody.
  destruct (body (l, obj) x) as [[l' obj']|e]; cbn [mbind result_bind];
    [apply IH | done].
Qed.

Lemma for_r_add_term_collector ft name terms l obj l' obj' :
  for_r (add_term getprotobyname ExcludeAddrs ft name) terms (l, obj)
  = Ok (l', obj') →
  obj' = if String.eqb ft "object-group"
         then {| og_filter_name := og_filter_name obj;
                 og_terms := og_terms obj ++ terms |}
         else obj.
Proof.
  revert l obj. induction terms as [|t terms IH]; intros l obj; cbn [for_r].
  - intros [= _ <-]. destruct (String.eqb ft "object-group"); [|done].
    destruct obj. cbn. by rewrite app_nil_r.
  - destruct (add_term _ _ _ _ _ _) as [[l1 obj1]|e] eqn:E;
      cbn [mbind result_bind]; [|discriminate].
    intros H. apply IH in H. apply add_term_collector in E.
    destruct (String.eqb ft "object-group"); [|congruence].
    subst obj1 obj'. unfold AddTerm. cbn [og_filter_name og_terms].
    by rewrite <- app_assoc.
Qed.

(** The term loop of each subtype. *)
Lemma for_r_add_term_extended name terms l obj :
  for_r (add_term getprotobyname ExcludeAddrs "extended" name) terms (l, obj)
  = Ok (l ++ extended_texts getprotobyname ExcludeAddrs terms, obj).
Proof.
  revert l. induction terms as [|t terms IH]; intros l; cbn [for_r].
  - unfold extended_texts. cbn [map]. by rewrite app_nil_r.
  - assert (Hstep :
              add_term getprotobyname ExcludeAddrs "extended" name (l, obj) t
              = Ok (l ++ [Term_str getprotobyname ExcludeAddrs
                            (Term_init t 4)], obj)).
    { unfold add_term. eval_eqb. reflexivity. }
    rewrite Hstep. cbn [mbind result_bind]. rewrite IH.
    unfold extended_texts. cbn [map]. by rewrite <- app_assoc.
Qed.

Lemma for_r_add_term_inet6 name terms l obj :
  for_r (add_term getprotobyname ExcludeAddrs "inet6" name) terms (l, obj)
  = Ok (l ++ inet6_texts getprotobyname ExcludeAddrs terms, obj).
Proof.
  revert l. induction terms as [|t terms IH]; intros l; cbn [for_r].
  - unfold inet6_texts. cbn [map]. by rewrite app_nil_r.
  - assert (Hstep :
              add_term getprotobyname ExcludeAddrs "inet6" name (l, obj) t
              = Ok (l ++ [Term_str getprotobyname ExcludeAddrs
                            (Term_init t 6)], obj)).
    { unfold add_term. eval_eqb. reflexivity. }
    rewrite Hstep. cbn [mbind result_bind]. rewrite IH.
    unfold inet6_texts. cbn [map]. by rewrite <- app_assoc.
Qed.

Lemma for_r_add_term_object_group name terms l obj :
  for_r (add_term getprotobyname ExcludeAddrs "object-group" name) terms
    (l, obj)
  = Ok (l ++ map (fun t =>
                    ObjectGroupTerm_str getprotobyname
                      (ObjectGroupTerm_init t name)) terms,
        {| og_filter_name := og_filter_name obj;
           og_terms := og_terms obj ++ terms |}).
Proof.
  revert l obj. induction terms as [|t terms IH]; intros l obj; cbn [for_r map].
  - destruct obj. cbn. by rewrite !app_nil_r.
  - assert (Hstep :
              add_term getprotobyname ExcludeAddrs "object-group" name
                (l, obj) t
              = Ok (l ++ [ObjectGroupTerm_str getprotobyname
                            (ObjectGroupTerm_init t name)],
                    AddTerm obj t)).
    { unfold add_term. eval_eqb. reflexivity. }
    rewrite Hstep. cbn [mbind result_bind]. rewrite IH.
    unfold AddTerm. cbn [og_filter_name og_terms].
    by rewrite <- !app_assoc.
Qed.

Lemma add_term_standard name l obj t :
  add_term getprotobyname ExcludeAddrs "standard" name (l, obj) t
  = match TermStandard_init t name with
    | Ok ts => Ok (l ++ [TermStandard_str ts], obj)
    | Raise e => Raise e
    end.
Proof.
  unfold add_term. eval_eqb. cbv iota. by destruct (TermStandard_init t name).
Qed.

Lemma for_r_add_term_standard_texts name terms l obj l' obj' :
  for_r (add_term getprotobyname ExcludeAddrs "standard" name) terms (l, obj)
  = Ok (l', obj') →
  l' = l ++ standard_texts name terms ∧ obj' = obj.
Proof.
  revert l. induction terms as [|t terms IH]; intros l; cbn [for_r].
  - intros [= <- <-]. unfold standard_texts. cbn [map].
    by rewrite app_nil_r.
  - rewrite add_term_standard.
    destruct (TermStandard_init_cases t name) as [E | E]; rewrite E;
      cbn [mbind result_bind]; [discriminate|].
    intros H. apply IH in H as [-> ->]. split; [|done].
    unfold standard_texts. cbn [map]. by rewrite <- app_assoc.
Qed.

(** The lines a pass puts before the terms: the preamble of the subtype
    and the remarks of the header, when the name is accepted. *)
Lemma render_filter_type_unfold header terms name l obj ft :
  render_filter_type getprotobyname ExcludeAddrs header terms name (l, obj) ft
  = if is_ ft "extended"
       && (isdigit name && ((1 <=? int name) && (int name <=? 99)))
    then Raise UnsupportedCiscoAccessListError
    else if String.eqb (str_text ft) "standard"
            && negb (isdigit name && ((1 <=? int name) && (int name <=? 99)))
    then Raise UnsupportedCiscoAccessListError
    else
      match
        for_r (add_term getprotobyname ExcludeAddrs (str_text ft) name) terms
          (l ++ (if is_ ft "extended" then extended_preamble name else [])
             ++ (if String.eqb (str_text ft) "standard"
                 then standard_preamble name else [])
             ++ (if String.eqb (str_text ft) "object-group"
                 then extended_preamble name else [])
             ++ (if String.eqb (str_text ft) "inet6"
                 then inet6_preamble name else [])
             ++ header_remarks header,
           if String.eqb (str_text ft) "object-group"
           then AddName obj name else obj)
      with
      | Ok (l', obj') => Ok (l' ++ [nl], obj')
      | Raise e => Raise e
      end.
Proof.
  unfold render_filter_type, extended_preamble, standard_preamble,
    inet6_preamble, header_remarks.
  destruct (is_ ft "extended"), (String.eqb (str_text ft) "standard"),
    (String.eqb (str_text ft) "object-group"),
    (String.eqb (str_text ft) "inet6"),
    (isdigit name), ((1 <=? int name) && (int name <=? 99));
    cbn [andb negb mbind result_bind app]; try reflexivity;
    rewrite <- ?app_assoc, ?app_nil_r; cbn [app];
    match goal with
    | |- context [for_r ?b ?ts ?s] => destruct (for_r b ts s) as [[? ?]|?]
    end; reflexivity.
Qed.

Lemma render_filter_type_frame header terms name pre l obj ft :
  render_filter_type getprotobyname ExcludeAddrs header terms name
    (pre ++ l, obj) ft
  = match render_filter_type getprotobyname ExcludeAddrs header terms name
            (l, obj) ft with
    | Ok (l', obj') => Ok (pre ++ l', obj')
    | Raise e => Raise e
    end.
Proof.
  rewrite !render_filter_type_unfold.
  destruct (_ && _); [done|]. destruct (_ && _); [done|].
  rewrite <- app_assoc.
  rewrite (for_r_frame _ (add_term_frame (str_text ft) name)).
  destruct (for_r _ _ _) as [[l' obj']|e]; [|done].
  by rewrite app_assoc.
Qed.

Lemma render_filter_type_collector header terms name l obj ft l' obj' :
  render_filter_type getprotobyname ExcludeAddrs header terms name (l, obj) ft
  = Ok (l', obj') →
  obj' = if String.eqb (str_text ft) "object-group"
         then {| og_filter_name := name; og_terms := og_terms obj ++ terms |}
         else obj.
Proof.
  rewrite render_filter_type_unfold.
  destruct (_ && _); [discriminate|]. destruct (_ && _); [discriminate|].
  destruct (for_r _ _ _) as [[l1 obj1]|e] eqn:E; [|discriminate].
  intros [= _ <-]. apply for_r_add_term_collector in E.
  by destruct (String.eqb (str_text ft) "object-group").
Qed.

(** One pass of each subtype. *)
Lemma render_extended header terms name l obj ft :
  str_text ft = "extended" →
  render_filter_type getprotobyname ExcludeAddrs header terms name (l, obj) ft
  = if str_interned ft
       && (isdigit name && ((1 <=? int name) && (int name <=? 99)))
    then Raise UnsupportedCiscoAccessListError
    else Ok (l ++ block (if str_interned ft then extended_preamble name
                         else [])
                    header (extended_texts getprotobyname ExcludeAddrs terms),
             obj).
Proof.
  intros Htext. rewrite render_filter_type_unfold. unfold is_.
  rewrite Htext. eval_eqb. cbn [andb app].
  destruct (str_interned ft && _); [done|].
  rewrite for_r_add_term_extended. unfold block.
  by rewrite <- !app_assoc.
Qed.

Lemma render_inet6 header terms name l obj ft :
  str_text ft = "inet6" →
  render_filter_type getprotobyname ExcludeAddrs header terms name (l, obj) ft
  = Ok (l ++ block (inet6_preamble name) header
               (inet6_texts getprotobyname ExcludeAddrs terms),
        obj).
Proof.
  intros Htext. rewrite render_filter_type_unfold. unfold is_.
  rewrite Htext. eval_eqb. cbn [andb app].
  rewrite for_r_add_term_inet6. unfold block.
  by rewrite <- !app_assoc.
Qed.

Lemma render_object_group header terms name l obj ft :
  str_text ft = "object-group" →
  render_filter_type getprotobyname ExcludeAddrs header terms name (l, obj) ft
  = Ok (l ++ block (extended_preamble name) header
               (object_group_texts getprotobyname name terms),
        {| og_filter_name := name; og_terms := og_terms obj ++ terms |}).
Proof.
  intros Htext. rewrite render_filter_type_unfold. unfold is_.
  rewrite Htext. eval_eqb. cbn [andb app].
  rewrite for_r_add_term_object_group. unfold block, object_group_texts.
  by rewrite <- !app_assoc.
Qed.

Lemma render_standard header terms name l obj ft l' obj' :
  str_text ft = "standard" →
  render_filter_type getprotobyname ExcludeAddrs header terms name (l, obj) ft
  = Ok (l', obj') →
  l' = l ++ block (standard_preamble name) header (standard_texts name terms)
  ∧ obj' = obj.
Proof.
  intros Htext. rewrite render_filter_type_unfold. unfold is_.
  rewrite Htext. eval_eqb. cbn [andb app].
  destruct (negb _); [discriminate|].
  destruct (for_r _ _ _) as [[l1 obj1]|e] eqn:E; [|discriminate].
  intros [= <- <-]. apply for_r_add_term_standard_texts in E as [-> ->].
  split; [|done]. unfold block. by rewrite <- !app_assoc.
Qed.

Lemma good_filters_cases ty :
  In ty good_filters ↔
  ty = "extended" ∨ ty = "standard" ∨ ty = "object-group" ∨ ty = "inet6"
  ∨ ty = "mixed".
Proof.
  unfold good_filters. cbn [In].
  split; intros H; repeat destruct H as [H|H]; subst; auto 10; done.
Qed.

Lemma filter_list_mixed ft :
  str_text ft = "mixed" →
  filter_list ft = [literal "extended"; literal "inet6"].
Proof. unfold filter_list. by intros ->. Qed.

Lemma filter_list_other ft :
  str_text ft ≠ "mixed" → filter_list ft = [ft].
Proof. unfold filter_list. intros H%String.eqb_neq. by rewrite H. Qed.

(** The document of a filter of each subtype, when there is one. *)
Lemma filter_body_document header terms doc :
  let name := header_filter_name header in
  let subtype := resolved_filter_type header in
  filter_body getprotobyname ExcludeAddrs (header, terms)
    ([], ObjectGroup_init) = Ok (Return doc) →
  (str_text subtype = "extended" →
   doc = join nl
           (marker_lines
            ++ block (if str_interned subtype then extended_preamble name
                      else [])
                 header (extended_texts getprotobyname ExcludeAddrs terms)))
  ∧ (str_text subtype = "inet6" →
     doc = join nl
             (marker_lines
              ++ block (inet6_preamble name) header
                   (inet6_texts getprotobyname ExcludeAddrs terms)))
  ∧ (str_text subtype = "mixed" →
     doc = join nl
             (marker_lines
              ++ block (extended_preamble name) header
                   (extended_texts getprotobyname ExcludeAddrs terms)
              ++ block (inet6_preamble name) header
                   (inet6_texts getprotobyname ExcludeAddrs terms)))
  ∧ (str_text subtype = "standard" →
     doc = join nl
             (marker_lines
              ++ block (standard_preamble name) header
                   (standard_texts name terms)))
  ∧ (str_text subtype = "object-group" →
     doc = join nl
             (marker_lines
              ++ group_definitions terms
              ++ block (extended_preamble name) header
                   (object_group_texts getprotobyname name terms)))
  ∧ In (str_text subtype) good_filters.
Proof.
  intros name subtype. rewrite filter_body_unfold. fold subtype name.
  destruct (str_in (str_text subtype) good_filters) eqn:Egood;
    [|discriminate]. cbn [negb].
  apply str_in_true in Egood. intros Hdoc.
  repeat split; try exact Egood; intros Htext.
  - rewrite filter_list_other in Hdoc by (rewrite Htext; discriminate).
    cbn [for_r] in Hdoc. rewrite (render_extended _ _ _ _ _ _ Htext) in Hdoc.
    destruct (str_interned subtype && _); [discriminate|].
    cbn [mbind result_bind] in Hdoc. injection Hdoc as <-.
    reflexivity.
  - rewrite filter_list_other in Hdoc by (rewrite Htext; discriminate).
    cbn [for_r] in Hdoc. rewrite (render_inet6 _ _ _ _ _ _ Htext) in Hdoc.
    cbn [mbind result_bind] in Hdoc. injection Hdoc as <-.
    reflexivity.
  - rewrite (filter_list_mixed _ Htext) in Hdoc. cbn [for_r] in Hdoc.
    rewrite (render_extended _ _ _ _ _ (literal "extended") eq_refl) in Hdoc.
    cbn [str_interned literal andb] in Hdoc.
    destruct (isdigit name && _); [discriminate|].
    cbn [mbind result_bind] in Hdoc.
    rewrite (render_inet6 _ _ _ _ _ (literal "inet6") eq_refl) in Hdoc.
    cbn [mbind result_bind] in Hdoc. rewrite app_nil_l in Hdoc.
    injection Hdoc as <-. reflexivity.
  - rewrite filter_list_other in Hdoc by (rewrite Htext; discriminate).
    cbn [for_r] in Hdoc.
    destruct (render_filter_type _ _ _ _ _ _ _) as [[l obj]|e] eqn:E;
      cbn [mbind result_bind] in Hdoc; [|discriminate].
    apply (render_standard _ _ _ _ _ _ _ _ Htext) in E as [-> ->].
    injection Hdoc as <-. reflexivity.
  - rewrite filter_list_other in Hdoc by (rewrite Htext; discriminate).
    cbn [for_r] in Hdoc.
    rewrite (render_object_group _ _ _ _ _ _ Htext) in Hdoc.
    cbn [mbind result_bind] in Hdoc. injection Hdoc as <-.
    unfold assemble, ObjectGroup_valid, ObjectGroup_str, group_definitions.
    cbn [og_terms ObjectGroup_init app]. by destruct terms.
Qed.

(** C1 (as the code has it): with two or more filters, [Cisco.__str__]
    gives what it gives for the first filter alone - the same exception
    and no document, or the same document.  A document is the two marker
    lines, then the group definitions of an object-group filter that has
    terms, then one access list for each pass over the first filter (two
    for [mixed]: extended, then inet6): the preamble, the remark lines of
    the header, one text for each term of the first filter, and a closing
    line break.  Nothing of a later filter is in it.  For the subtype
    [extended] the preamble is that of an extended access list when the
    word is the renderer's own literal, as it is when the subtype is taken
    by default. *)
Theorem Cisco_str_first_filter_only header terms g rest :
  let name := header_filter_name header in
  let subtype := resolved_filter_type header in
  let first_alone :=
    Cisco_str getprotobyname ExcludeAddrs
      {| policy := {| filters := [(header, terms)] |} |} in
  Cisco_str getprotobyname ExcludeAddrs
    {| policy := {| filters := (header, terms) :: g :: rest |} |}
  = first_alone
  ∧ ∀ doc,
      first_alone = Ok doc →
      (str_text subtype = "extended" →
       ∃ preamble,
         doc = join nl
                 (marker_lines
                  ++ block preamble header
                       (extended_texts getprotobyname ExcludeAddrs terms))
         ∧ (str_interned subtype = true → preamble = extended_preamble name))
      ∧ (str_text subtype = "inet6" →
         doc = join nl
                 (marker_lines
                  ++ block (inet6_preamble name) header
                       (inet6_texts getprotobyname ExcludeAddrs terms)))
      ∧ (str_text subtype = "mixed" →
         doc = join nl
                 (marker_lines
                  ++ block (extended_preamble name) header
                       (extended_texts getprotobyname ExcludeAddrs terms)
                  ++ block (inet6_preamble name) header
                       (inet6_texts getprotobyname ExcludeAddrs terms)))
      ∧ (str_text subtype = "standard" →
         doc = join nl
                 (marker_lines
                  ++ block (standard_preamble name) header
                       (standard_texts name terms)))
      ∧ (str_text subtype = "object-group" →
         doc = join nl
                 (marker_lines
                  ++ group_definitions terms
                  ++ block (extended_preamble name) header
                       (object_group_texts getprotobyname name terms)))
      ∧ In (str_text subtype) good_filters.
Proof.
  intros name subtype first_alone. unfold first_alone.
  split; [by rewrite !Cisco_str_cons|].
  intros doc. rewrite Cisco_str_cons.
  destruct (filter_body _ _ _ _) as [[st|doc']|e] eqn:E; try discriminate.
  intros [= ->].
  destruct (filter_body_document header terms doc E)
    as (Hext & Hinet6 & Hmixed & Hstd & Hog & Hgood).
  repeat split; try assumption.
  intros Htext.
  exists (if str_interned subtype then extended_preamble name else []).
  split; [exact (Hext Htext)|]. intros Hint. by rewrite Hint.
Qed.

(** *** Filter names *)

(** C3 (as the code has it): the name of a filter is checked in two
    places.  An extended filter whose name is all digits with a value in
    1..99 raises [UnsupportedCiscoAccessListError] when its subtype word is
    the renderer's own literal ['extended'], which is what the identity
    test looks for; a standard filter raises it unless its name is all
    digits with a value in 1..99, and with such a name it does not.  An
    extended filter whose subtype word was built at run time is rendered
    whatever its name, without the two lines that declare the access list;
    an object-group filter is rendered whatever its name. *)
Theorem filter_name_check header terms rest :
  let name := header_filter_name header in
  let subtype := resolved_filter_type header in
  let outcome :=
    Cisco_str getprotobyname ExcludeAddrs
      {| policy := {| filters := (header, terms) :: rest |} |} in
  (is_ subtype "extended" = true → numbered_1_99 name →
   outcome = Raise UnsupportedCiscoAccessListError)
  ∧ (str_text subtype = "standard" → ¬ numbered_1_99 name →
     outcome = Raise UnsupportedCiscoAccessListError)
  ∧ (str_text subtype = "standard" → numbered_1_99 name →
     outcome ≠ Raise UnsupportedCiscoAccessListError)
  ∧ (str_text subtype = "extended" → str_interned subtype = false →
     outcome
     = Ok (join nl
             (marker_lines
              ++ block [] header
                   (extended_texts getprotobyname ExcludeAddrs terms))))
  ∧ (str_text subtype = "object-group" →
     outcome
     = Ok (join nl
             (marker_lines
              ++ group_definitions terms
              ++ block (extended_preamble name) header
                   (object_group_texts getprotobyname name terms)))).
Proof.
  intros name subtype outcome. unfold outcome.
  rewrite Cisco_str_cons, filter_body_unfold. fold subtype name.
  split; [|split; [|split; [|split]]].
  - intros Hlit%is_literal Hname%numbered_1_99_test. rewrite Hlit.
    change (negb (str_in (str_text (literal "extended")) good_filters))
      with false.
    change (filter_list (literal "extended")) with [literal "extended"].
    cbv iota. cbn [for_r].
    rewrite (render_extended _ _ _ _ _ (literal "extended") eq_refl).
    cbn [str_interned literal andb]. by rewrite Hname.
  - intros Htext Hname%numbered_1_99_test_false.
    rewrite filter_list_other by (rewrite Htext; discriminate).
    rewrite Htext.
    change (negb (str_in "standard" good_filters)) with false.
    cbv iota. cbn [for_r]. rewrite render_filter_type_unfold.
    rewrite is_other by (rewrite Htext; discriminate).
    rewrite Htext. eval_eqb. cbn [andb]. by rewrite Hname.
  - intros Htext Hname%numbered_1_99_test.
    rewrite filter_list_other by (rewrite Htext; discriminate).
    rewrite Htext.
    change (negb (str_in "standard" good_filters)) with false.
    cbv iota. cbn [for_r]. rewrite render_filter_type_unfold.
    rewrite is_other by (rewrite Htext; discriminate).
    rewrite Htext. eval_eqb. cbn [andb]. rewrite Hname. cbn [negb].
    rewrite app_nil_l.
    match goal with
    | |- context [for_r ?b terms ?s] => destruct (for_r b terms s) as [[l o]|e] eqn:E
    end; cbn [mbind result_bind]; [discriminate|].
    assert (e = StandardAclTermError) as ->; [|discriminate].
    revert E. generalize (standard_preamble name ++ [] ++ [] ++ header_remarks header).
    intros l. revert l. induction terms as [|t terms IH]; intros l;
      cbn [for_r]; [discriminate|].
    rewrite add_term_standard.
    destruct (TermStandard_init_cases t name) as [Et | Et]; rewrite Et;
      cbn [mbind result_bind]; [congruence | apply IH].
  - intros Htext Hbuilt.
    rewrite filter_list_other by (rewrite Htext; discriminate).
    rewrite Htext.
    change (negb (str_in "extended" good_filters)) with false.
    cbv iota. cbn [for_r]. rewrite (render_extended _ _ _ _ _ _ Htext).
    rewrite Hbuilt. cbn [andb mbind result_bind]. reflexivity.
  - intros Htext.
    rewrite filter_list_other by (rewrite Htext; discriminate).
    rewrite Htext.
    change (negb (str_in "object-group" good_filters)) with false.
    cbv iota. cbn [for_r]. rewrite (render_object_group _ _ _ _ _ _ Htext).
    cbn [mbind result_bind].
    unfold assemble, ObjectGroup_valid, ObjectGroup_str, group_definitions.
    cbn [og_terms ObjectGroup_init app]. by destruct terms.
Qed.
(** *** The [established] option *)

Lemma set_destination_port_same term :
  set_destination_port term (term_destination_port term) = term.
Proof. by destruct term. Qed.

Lemma set_destination_port_twice term dp dp' :
  set_destination_port (set_destination_port term dp) dp'
  = set_destination_port term dp'.
Proof. reflexivity. Qed.

Lemma established_fold opts term dp :
  fold_left (fun term opt =>
               if startswith "established" opt then append_high_ports term
               else term)
    opts (set_destination_port term dp)
  = set_destination_port term
      (dp ++ replicate (length (List.filter (startswith "established") opts))
               high_ports).
Proof.
  revert dp. induction opts as [|opt opts IH]; intros dp.
  - cbn [fold_left List.filter length replicate]. by rewrite app_nil_r.
  - cbn [fold_left List.filter]. destruct (startswith "established" opt).
    + unfold append_high_ports at 2. rewrite set_destination_port_twice.
      cbn [term_destination_port set_destination_port].
      rewrite IH. cbn [length replicate]. by rewrite <- app_assoc.
    + apply IH.
Qed.

Lemma established_high_ports_spec term :
  established_high_ports term
  = set_destination_port term
      (term_destination_port term
       ++ replicate
            (length (List.filter (startswith "established") (term_option term)))
            high_ports).
Proof.
  unfold established_high_ports.
  rewrite <- (set_destination_port_same term) at 2.
  apply established_fold.
Qed.

Lemma prefix_app sub rest : String.prefix sub (sub +:+ rest) = true.
Proof.
  induction sub as [|c sub IH]; simpl; [by destruct rest|].
  destruct (ascii_dec c c); [done | congruence].
Qed.

Lemma contains_unfold sub s :
  contains sub s
  = String.prefix sub s
    || match s with
       | EmptyString => false
       | String _ s' => contains sub s'
       end.
Proof. by destruct s. Qed.

Lemma contains_prefix sub rest : contains sub (sub +:+ rest) = true.
Proof. by rewrite contains_unfold, prefix_app. Qed.

Lemma contains_app_r sub a b :
  contains sub b = true → contains sub (a +:+ b) = true.
Proof.
  intros H. induction a as [|c a IH]; [done|].
  change (String c a +:+ b) with (String c (a +:+ b)).
  rewrite contains_unfold, IH. apply orb_true_r.
Qed.

Lemma append_cons c s t : String c s +:+ t = String c (s +:+ t).
Proof. reflexivity. Qed.

Lemma append_empty_r s : s +:+ EmptyString = s.
Proof. induction s as [|c s IH]; [done|]. by rewrite append_cons, IH. Qed.

Lemma contains_refl sub : contains sub sub = true.
Proof.
  pose proof (contains_prefix sub EmptyString) as H.
  by rewrite append_empty_r in H.
Qed.

Lemma contains_join sub sep l :
  In sub l → contains sub (join sep l) = true.
Proof.
  induction l as [|x l IH]; [done|]. intros [-> | Hin].
  - destruct l; cbn [join]; [apply contains_refl | apply contains_prefix].
  - destruct l as [|y l]; [done|].
    change (join sep (x :: y :: l)) with (x +:+ sep +:+ join sep (y :: l)).
    apply contains_app_r, contains_app_r. by apply IH.
Qed.

Lemma _TermletToStr_contains action pr saddr sport daddr dport options kw :
  In kw options →
  contains kw (_TermletToStr action pr saddr sport daddr dport options) = true.
Proof.
  intros Hin. unfold _TermletToStr.
  destruct options as [|o options]; [done|]. cbn [nonempty].
  repeat apply contains_app_r. by apply contains_join.
Qed.

Lemma existsb_proto_is n l : existsb (proto_is n) l = true ↔ In (PNum n) l.
Proof.
  rewrite existsb_exists. split.
  - intros ([m|s] & Hin & H); [|done]. simpl in H.
    apply Z.eqb_eq in H. by subst.
  - intros Hin. exists (PNum n). split; [done|]. simpl. apply Z.eqb_refl.
Qed.

Lemma Term_options_init term af :
  Term_options getprotobyname (Term_init term af)
  = flat_map (fun opt =>
                if (startswith "tcp-established" opt
                    || startswith "established" opt)
                   && existsb (proto_is 6) (Term_protocol getprotobyname term)
                then ["established"] else [])
      (term_option term)
    ++ (if term_logging term then ["log"] else []).
Proof.
  unfold Term_options, Term_init. cbn [t_term t_options app].
  set (f := fun opt => _). set (g := fun opt => _).
  assert (flat_map f (term_option term) = flat_map g (term_option term)) as ->.
  { apply flat_map_ext. intros opt. unfold f, g.
    destruct (startswith "tcp-established" opt),
      (startswith "established" opt), (existsb _ _); reflexivity. }
  destruct (term_logging term); [done | by rewrite app_nil_r].
Qed.

Lemma Term_statements_Forall (P : string → Prop) self :
  (∀ action pr saddr sport daddr dport,
     P (_TermletToStr action pr saddr sport daddr dport
          (Term_options getprotobyname self))) →
  Forall P (Term_statements getprotobyname ExcludeAddrs self).
Proof.
  intros HP. unfold Term_statements.
  repeat (apply Forall_flat_map, Forall_forall; intros ? _).
  destruct (do_output _ _ _); [|constructor].
  constructor; [apply HP | constructor].
Qed.

(** C4 (as the code has it): construction replaces every term of every
    filter by the term with one range (1024, 65535) appended to its
    destination ports for each option that begins with ['established'] -
    one range when there is one such option, none when there is none - and
    changes nothing else.  In the extended rendering, when the resolved
    protocols contain 6 and an option begins with ['established'] or
    ['tcp-established'], every statement line of the term contains the
    keyword [established]; when the resolved protocols do not contain 6
    (a UDP-only term), the options of every statement line are [log] or
    nothing, never [established]. *)
Theorem established_option term af :
  (∀ pol c,
     Cisco_init pol = Ok c →
     filters (policy c)
     = map (fun '(header, terms) =>
              (header,
               map (fun t =>
                      set_destination_port t
                        (term_destination_port t
                         ++ replicate
                              (length (List.filter (startswith "established")
                                         (term_option t)))
                              high_ports))
                 terms))
         (filters pol))
  ∧ (In (PNum 6) (map (FixupProtocol getprotobyname) (term_protocol term)) →
     (∃ opt, In opt (term_option term)
             ∧ (startswith "established" opt = true
                ∨ startswith "tcp-established" opt = true)) →
     In "established" (Term_options getprotobyname (Term_init term af))
     ∧ Forall (fun line => contains "established" line = true)
         (Term_statements getprotobyname ExcludeAddrs (Term_init term af)))
  ∧ (¬ In (PNum 6) (Term_protocol getprotobyname term) →
     Term_options getprotobyname (Term_init term af)
     = (if term_logging term then ["log"] else [])
     ∧ ¬ In "established" (Term_options getprotobyname (Term_init term af))).
Proof.
  split; [|split].
  - intros pol c. unfold Cisco_init.
    destruct (check_headers (headers pol)); simpl; [|discriminate].
    intros [= <-]. cbn [policy filters].
    apply map_ext. intros [header terms]. f_equal.
    apply map_ext. intros t. apply established_high_ports_spec.
  - intros H6 (opt & Hopt & Hpre).
    assert (Hin : In "established"
                    (Term_options getprotobyname (Term_init term af))).
    { rewrite Term_options_init. apply in_or_app. left.
      apply in_flat_map. exists opt. split; [done|].
      assert (existsb (proto_is 6) (Term_protocol getprotobyname term) = true)
        as ->.
      { apply existsb_proto_is. unfold Term_protocol.
        destruct (term_protocol term); [done | exact H6]. }
      destruct Hpre as [-> | ->]; rewrite ?orb_true_r; by left. }
    split; [exact Hin|].
    apply Term_statements_Forall. intros.
    by apply _TermletToStr_contains.
  - intros H6.
    assert (Hopts : Term_options getprotobyname (Term_init term af)
                    = (if term_logging term then ["log"] else [])).
    { rewrite Term_options_init.
      assert (existsb (proto_is 6) (Term_protocol getprotobyname term) = false)
        as ->.
      { apply not_true_is_false. by rewrite existsb_proto_is. }
      assert (∀ l : list string,
                flat_map (fun opt : string =>
                            if (startswith "tcp-established" opt
                                || startswith "established" opt) && false
                            then ["established"] else []) l = []) as ->; [|done].
      induction l as [|x l IH]; [done|]. cbn [flat_map].
      by rewrite andb_false_r. }
    split; [exact Hopts|]. rewrite Hopts.
    destruct (term_logging term); simpl; intros H; intuition discriminate.
Qed.

(** *** Counting the statement lines *)

Lemma flat_map_assoc {A B C} (f : A → list B) (g : B → list C) l :
  flat_map g (flat_map f l) = flat_map (fun x => flat_map g (f x)) l.
Proof.
  induction l as [|x l IH]; [done|]. cbn [flat_map].
  by rewrite flat_map_app, IH.
Qed.

Lemma length_flat_map_const {A B} (f : A → list B) l k :
  (∀ x, length (f x) = k) → length (flat_map f l) = (length l * k)%nat.
Proof.
  intros Hf. induction l as [|x l IH]; [done|]. cbn [flat_map length].
  rewrite length_app, Hf, IH. lia.
Qed.

Lemma length_flat_map_if {A B} (p : A → bool) (g : A → B) l :
  length (flat_map (fun x => if p x then [g x] else []) l)
  = length (List.filter p l).
Proof.
  induction l as [|x l IH]; [done|]. cbn [flat_map List.filter].
  destruct (p x); cbn [app length]; by rewrite IH.
Qed.

Lemma length_filter_negb {A} (p : A → bool) l :
  (length (List.filter p l)
   + length (List.filter (fun x => negb (p x)) l))%nat = length l.
Proof.
  induction l as [|x l IH]; [done|]. cbn [List.filter].
  destruct (p x); cbn [negb length]; lia.
Qed.

Lemma Term_init_af term af :
  t_af (Term_init term af) = 4 ∨ t_af (Term_init term af) = 6.
Proof. unfold Term_init. cbn [t_af]. destruct (af =? 6); auto. Qed.

Lemma do_output_family_mismatch af saddr daddr :
  af = 4 ∨ af = 6 →
  do_output af saddr daddr
  = negb (family_differs af saddr || family_differs af daddr).
Proof.
  unfold do_output.
  intros [-> | ->];
    destruct saddr as [|[[] ? ? ? ? ? ? ? ?]], daddr as [|[[] ? ? ? ? ? ? ? ?]];
    reflexivity.
Qed.

Lemma Term_statements_combinations term af :
  Term_statements getprotobyname ExcludeAddrs (Term_init term af)
  = flat_map (fun c =>
                if negb (family_mismatch (t_af (Term_init term af)) c)
                then [statement_of getprotobyname (Term_init term af) c]
                else [])
      (Term_combinations getprotobyname ExcludeAddrs (Term_init term af)).
Proof.
  unfold Term_statements, Term_combinations.
  rewrite flat_map_assoc. apply flat_map_ext. intros saddr.
  rewrite flat_map_assoc. apply flat_map_ext. intros daddr.
  rewrite flat_map_assoc. apply flat_map_ext. intros sport.
  rewrite flat_map_assoc. apply flat_map_ext. intros dport.
  rewrite flat_map_assoc. apply flat_map_ext. intros pr.
  cbn [flat_map]. rewrite app_nil_r.
  cbn [family_mismatch statement_of].
  by rewrite (do_output_family_mismatch _ _ _ (Term_init_af term af)).
Qed.

Lemma length_Term_combinations self :
  length (Term_combinations getprotobyname ExcludeAddrs self)
  = (length (Term_source_address ExcludeAddrs self)
     * length (Term_destination_address ExcludeAddrs self)
     * length (Term_source_port (t_term self))
     * length (Term_destination_port (t_term self))
     * length (Term_protocol getprotobyname (t_term self)))%nat.
Proof.
  unfold Term_combinations.
  rewrite (length_flat_map_const _ _
             (length (Term_destination_address ExcludeAddrs self)
              * (length (Term_source_port (t_term self))
                 * (length (Term_destination_port (t_term self))
                    * (length (Term_protocol getprotobyname (t_term self))
                       * 1))))%nat); [lia|].
  intros saddr. apply length_flat_map_const.
  intros daddr. apply length_flat_map_const.
  intros sport. apply length_flat_map_const.
  intros dport. apply length_flat_map_const.
  by intros pr.
Qed.

Lemma verbatim_exit_none term ret_str :
  term_verbatim term = [] → verbatim_exit term ret_str = Continue ret_str.
Proof. unfold verbatim_exit. by intros ->. Qed.

Lemma flat_map_singleton {A B} (f : A → B) l :
  flat_map (fun x => [f x]) l = map f l.
Proof. induction l as [|x l IH]; [done|]. cbn [flat_map map app]. by rewrite IH. Qed.

Lemma flat_map_if_filter {A B} (p : A → bool) (g : A → B) l :
  flat_map (fun x => if p x then [g x] else []) l = map g (List.filter p l).
Proof.
  induction l as [|x l IH]; [done|]. cbn [flat_map List.filter].
  destruct (p x); cbn [app map]; by rewrite IH.
Qed.

Lemma Term_addresses_effective af addrs excl :
  Term_addresses ExcludeAddrs af addrs excl
  = effective_addresses ExcludeAddrs af addrs excl.
Proof.
  unfold Term_addresses, effective_addresses, GetAddressOfVersion.
  destruct addrs as [|a addrs]; [done|]. cbn [nonempty]. cbv zeta.
  by destruct (List.filter _ excl).
Qed.

Lemma Term_ports_effective ports :
  (if nonempty ports then ports else [None]) = effective_ports ports.
Proof. by destruct ports. Qed.

Lemma Term_protocol_effective term :
  Term_protocol getprotobyname term
  = effective_protocols getprotobyname (term_protocol term).
Proof. unfold Term_protocol, effective_protocols. by destruct (term_protocol term). Qed.

Lemma Term_combinations_effective term af :
  Term_combinations getprotobyname ExcludeAddrs (Term_init term af)
  = term_combinations getprotobyname ExcludeAddrs term af.
Proof.
  unfold Term_combinations, term_combinations, combinations_of,
    Term_source_address, Term_destination_address, Term_source_port,
    Term_destination_port.
  cbn [Term_init t_term t_af]. fold (requested_family af).
  rewrite !Term_addresses_effective, !Term_ports_effective,
    Term_protocol_effective.
  apply flat_map_ext. intros saddr. apply flat_map_ext. intros daddr.
  apply flat_map_ext. intros sport. apply flat_map_ext. intros dport.
  apply flat_map_singleton.
Qed.

Lemma length_effective_ports ports :
  length (effective_ports ports) = loop_length ports.
Proof. destruct ports; [done|]. unfold loop_length. cbn [effective_ports length]. lia. Qed.

Lemma length_effective_protocols protocols :
  length (effective_protocols getprotobyname protocols)
  = loop_length protocols.
Proof.
  destruct protocols; [done|]. unfold loop_length, effective_protocols.
  rewrite length_map. cbn [length]. lia.
Qed.

Lemma length_combinations_of sources destinations sports dports protocols :
  length (combinations_of sources destinations sports dports protocols)
  = (length sources * length destinations * length sports * length dports
     * length protocols)%nat.
Proof.
  unfold combinations_of.
  rewrite (length_flat_map_const _ _
             (length destinations
              * (length sports * (length dports * length protocols)))%nat);
    [lia|].
  intros saddr. apply length_flat_map_const.
  intros daddr. apply length_flat_map_const.
  intros sport. apply length_flat_map_const.
  intros dport. apply length_map.
Qed.

(** C8: take a term without verbatim entries and a renderer for the
    family [af].  Let [n] and [m] be the numbers of its effective source
    and destination addresses (['any'] when the term has none on that side;
    otherwise its addresses of the requested family, less the exclusions),
    [p] and [q] the numbers of its source and destination port ranges and
    [r] the number of its protocols, each counted as one when the term has
    none.  The text is the remark lines followed by one statement line for
    each combination of those five whose source and destination address
    are both of the requested family or ['any'], in the order of the
    combinations: [n*m*p*q*r] lines less one for every combination with an
    address of the other family, and so never more than [n*m*p*q*r]. *)
Theorem Term_statement_count term af :
  term_verbatim term = [] →
  let family := requested_family af in
  let n :=
    length (effective_addresses ExcludeAddrs family
              (term_source_address term) (term_source_address_exclude term)) in
  let m :=
    length (effective_addresses ExcludeAddrs family
              (term_destination_address term)
              (term_destination_address_exclude term)) in
  let p := loop_length (term_source_port term) in
  let q := loop_length (term_destination_port term) in
  let r := loop_length (term_protocol term) in
  let combinations := term_combinations getprotobyname ExcludeAddrs term af in
  let mismatches :=
    length (List.filter (family_mismatch family) combinations) in
  let statements :=
    map (statement_of getprotobyname (Term_init term af))
      (List.filter (fun c => negb (family_mismatch family c)) combinations) in
  Term_str getprotobyname ExcludeAddrs (Term_init term af)
  = join nl (Term_remarks term ++ statements)
  ∧ length combinations = (n * m * p * q * r)%nat
  ∧ length statements = (n * m * p * q * r - mismatches)%nat
  ∧ (mismatches ≤ n * m * p * q * r)%nat
  ∧ (length statements ≤ n * m * p * q * r)%nat.
Proof.
  intros Hverb family n m p q r combinations mismatches statements.
  assert (Hlen : length combinations = (n * m * p * q * r)%nat).
  { unfold combinations, term_combinations.
    rewrite length_combinations_of, !length_effective_ports,
      length_effective_protocols. reflexivity. }
  pose proof (length_filter_negb (family_mismatch family) combinations)
    as Hsplit.
  fold mismatches in Hsplit. rewrite Hlen in Hsplit.
  assert (Hcount : length statements
                   = length (List.filter
                               (fun c => negb (family_mismatch family c))
                               combinations)).
  { unfold statements. apply length_map. }
  split; [|split; [exact Hlen|]].
  - unfold Term_str. cbn [Term_init t_term].
    rewrite verbatim_exit_none by done.
    fold (Term_init term af). rewrite Term_statements_combinations.
    rewrite Term_combinations_effective, flat_map_if_filter.
    reflexivity.
  - rewrite Hcount. lia.
Qed.

(** *** Verbatim terms *)

Lemma verbatim_exit_first term platform text rest ret_str :
  term_verbatim term = (platform, text) :: rest →
  verbatim_exit term ret_str
  = Return (join nl (ret_str
                     ++ (if String.eqb platform "cisco" then [text] else []))).
Proof.
  unfold verbatim_exit. intros ->. cbn [nonempty for_each verbatim_body fst snd].
  destruct (String.eqb platform "cisco"); [done | by rewrite app_nil_r].
Qed.

(** C9 (as the code has it): a term with a non-empty verbatim list gets no
    statement lines from any of the three renderers, whatever the platforms
    of its entries.  The output is the remark lines followed by raw texts
    of entries that name ['cisco'], unmodified and in the order of the
    list, the text of the first entry first when that entry names
    ['cisco']; if no entry names ['cisco'], it is the remark lines
    alone. *)
Theorem verbatim_skips_rendering term af filter_name :
  term_verbatim term ≠ [] →
  ∃ texts,
    sublist texts (cisco_texts (term_verbatim term))
    ∧ (∀ text rest,
         term_verbatim term = ("cisco", text) :: rest →
         ∃ more, texts = text :: more)
    ∧ (no_cisco_entry (term_verbatim term) → texts = [])
    ∧ Term_str getprotobyname ExcludeAddrs (Term_init term af)
      = join nl (Term_remarks term ++ texts)
    ∧ ObjectGroupTerm_str getprotobyname
        (ObjectGroupTerm_init term filter_name)
      = join nl (ObjectGroupTerm_remarks term ++ texts)
    ∧ ∀ ts, TermStandard_init term filter_name = Ok ts →
            TermStandard_str ts
            = join nl (TermStandard_remarks term ++ texts).
Proof.
  destruct (term_verbatim term) as [|[platform text] rest] eqn:Hverb; [done|].
  intros _. exists (if String.eqb platform "cisco" then [text] else []).
  split; [|split; [|split; [|split; [|split]]]].
  - unfold cisco_texts. cbn [List.filter fst].
    destruct (String.eqb platform "cisco"); cbn [map snd].
    + apply sublist_skip, sublist_nil_l.
    + apply sublist_nil_l.
  - intros text' rest' [= -> -> _]. by exists [].
  - intros Hno. apply Forall_cons in Hno as [Hfirst _]. cbn [fst] in Hfirst.
    apply String.eqb_neq in Hfirst. by rewrite Hfirst.
  - unfold Term_str. cbn [Term_init t_term].
    by rewrite (verbatim_exit_first _ _ _ _ _ Hverb).
  - unfold ObjectGroupTerm_str. cbn [ObjectGroupTerm_init ogt_term].
    by rewrite (verbatim_exit_first _ _ _ _ _ Hverb).
  - intros ts Hts.
    destruct (TermStandard_init_cases term filter_name) as [E | E];
      rewrite E in Hts; [discriminate|]. injection Hts as <-.
    unfold TermStandard_str. cbn [ts_term].
    by rewrite (verbatim_exit_first _ _ _ _ _ Hverb).
Qed.
(** *** The filter [test-filter] *)

Lemma join_app_tail sep (l x y : list string) :
  x ≠ [] → y ≠ [] → join sep x = join sep y →
  join sep (l ++ x) = join sep (l ++ y).
Proof.
  intros Hx Hy Hxy. induction l as [|a l IH]; [exact Hxy|].
  cbn [app].
  assert (Hcons : ∀ z, z ≠ [] →
            join sep (a :: l ++ z) = a +:+ sep +:+ join sep (l ++ z)).
  { intros z Hz. destruct (l ++ z) eqn:E; [|done].
    by apply app_eq_nil in E as [_ ->]. }
  by rewrite !Hcons, IH.
Qed.

Lemma allow_web_text :
  getprotobyname "tcp" = Some 6 →
  Term_str getprotobyname ExcludeAddrs (Term_init allow_web 4)
  = join nl [nl; "remark allow-web"; " permit 6 any  any eq 80 "].
Proof.
  intros Htcp.
  unfold Term_str, Term_statements, Term_options, Term_protocol.
  cbn [Term_init t_term t_options t_af allow_web sample_term term_protocol
       term_verbatim term_option term_logging nonempty map verbatim_exit].
  change (FixupProtocol getprotobyname (PName "tcp"))
    with (match getprotobyname "tcp" with
          | Some n => PNum n
          | None => PName "tcp"
          end).
  rewrite Htcp. reflexivity.
Qed.

(** C7 (as the code has it): where the protocol database gives 6 for
    [tcp], a policy with the one extended filter [test-filter] and the one
    term [allow-web] (accept, tcp, destination port 80) renders to the two
    marker lines, a preamble, the remark lines of the header, and then the
    remark [remark allow-web] and the statement [ permit 6 any  any eq 80 ]
    between two pairs of empty lines - the protocol by its number, [any]
    for the source and for the destination, an empty source port and an
    empty option field.  The preamble is [no ip access-list extended
    test-filter] and [ip access-list extended test-filter] when the subtype
    word is the renderer's own literal, as it is when the subtype is taken
    by default. *)
Theorem web_policy_document header :
  getprotobyname "tcp" = Some 6 →
  header_filter_name header = "test-filter" →
  str_text (resolved_filter_type header) = "extended" →
  ∃ preamble,
    Cisco_str getprotobyname ExcludeAddrs
      {| policy := {| filters := [(header, [allow_web])] |} |}
    = Ok (join nl
            (marker_lines ++ preamble ++ header_remarks header
             ++ [ EmptyString; EmptyString;
                  "remark allow-web";
                  " permit 6 any  any eq 80 ";
                  EmptyString; EmptyString ]))
    ∧ (str_interned (resolved_filter_type header) = true →
       preamble = [ "no ip access-list extended test-filter";
                    "ip access-list extended test-filter" ]).
Proof.
  intros Htcp Hname Htext.
  exists (if str_interned (resolved_filter_type header)
          then extended_preamble "test-filter" else []).
  split; [|intros Hint; by rewrite Hint].
  rewrite Cisco_str_cons, filter_body_unfold.
  rewrite filter_list_other by (rewrite Htext; discriminate).
  rewrite Htext, Hname.
  change (negb (str_in "extended" good_filters)) with false.
  cbv iota. cbn [for_r]. rewrite (render_extended _ _ _ _ _ _ Htext).
  change (isdigit "test-filter") with false.
  rewrite andb_false_r. cbn [mbind result_bind].
  rewrite assemble_no_groups. f_equal.
  unfold block, extended_texts. cbn [map app].
  rewrite (allow_web_text Htcp).
  rewrite !(app_assoc _ _ [_; _]), !(app_assoc _ _ [_; _; _; _; _; _]).
  apply join_app_tail; done.
Qed.
(** *** Construction, again *)

Lemma established_high_ports_count term :
  established_high_ports term
  = set_destination_port term
      (term_destination_port term
       ++ replicate (established_count term) high_ports).
Proof. apply established_high_ports_spec. Qed.

Lemma check_headers_map_fst (fs : list (Header * list PolicyTerm))
    (f : PolicyTerm → PolicyTerm) :
  map fst (map (fun '(header, terms) => (header, map f terms)) fs)
  = map fst fs.
Proof.
  rewrite map_map. apply map_ext. by intros [header terms].
Qed.

(** X10: construction works on the policy it is given: it keeps the headers,
    it leaves a policy none of whose options begins with [established] as
    it is, and a second construction over the policy the first one left
    behind appends the high ports a second time. *)
Theorem Cisco_init_again pol c :
  Cisco_init pol = Ok c →
  headers (policy c) = headers pol
  ∧ ((∀ header terms term,
        In (header, terms) (filters pol) → In term terms →
        established_count term = 0%nat) →
     policy c = pol)
  ∧ Cisco_init (policy c)
    = Ok {| policy :=
              {| filters :=
                   map (fun '(header, terms) =>
                          (header,
                           map (fun t =>
                                  set_destination_port t
                                    (term_destination_port t
                                     ++ replicate (2 * established_count t)
                                          high_ports))
                             terms))
                     (filters pol) |} |}.
Proof.
  unfold Cisco_init.
  destruct (check_headers (headers pol)) as [[]|e] eqn:Hcheck;
    cbn [mbind result_bind]; [|discriminate].
  intros [= <-]. cbn [policy].
  assert (Hheaders :
            headers {| filters :=
                         map (fun '(headers, terms) =>
                                (headers, map established_high_ports terms))
                           (filters pol) |} = headers pol).
  { unfold headers. cbn [filters]. apply check_headers_map_fst. }
  split; [exact Hheaders|]. split.
  - intros Hnone. destruct pol as [fs]. cbn [filters] in *. f_equal.
    rewrite <- (map_id fs) at 2. apply map_ext_in.
    intros [header terms] Hin. f_equal.
    rewrite <- (map_id terms) at 2. apply map_ext_in. intros t Ht.
    rewrite established_high_ports_count, (Hnone header terms t Hin Ht).
    cbn [replicate]. rewrite app_nil_r. apply set_destination_port_same.
  - rewrite Hheaders, Hcheck. cbn [mbind result_bind filters].
    do 3 f_equal. rewrite map_map. apply map_ext. intros [header terms].
    f_equal. rewrite map_map. apply map_ext. intros t.
    replace (2 * established_count t)%nat
      with (established_count t + established_count t)%nat by lia.
    rewrite replicate_add, app_assoc.
    rewrite (established_high_ports_count (established_high_ports t)).
    by rewrite established_high_ports_count.
Qed.

(** *** The standard renderer's lines *)

Lemma standard_lines filter_name t addrs :
  flat_map (TermStandard_line filter_name t) addrs
  = map (standard_line filter_name t) (GetAddressOfVersion addrs 4).
Proof.
  unfold GetAddressOfVersion.
  induction addrs as [|addr addrs IH]; [done|].
  cbn [flat_map List.filter]. unfold TermStandard_line at 1.
  destruct (addr_family addr) eqn:E; cbn [version_of].
  - change (4 =? 4) with true. cbv iota. cbn [map]. rewrite IH.
    unfold standard_line at 2. by destruct (prefixlen addr =? 32).
  - change (6 =? 4) with false. cbv iota. exact IH.
Qed.

(** X11: a standard term that was constructed and has no verbatim entries is
    rendered as its remark lines and then one [access-list] line for each
    of its IPv4 addresses, in their order; its IPv6 addresses give no line,
    so with IPv6 addresses only the term is remarks and nothing else. *)
Theorem TermStandard_str_lines term filter_name ts :
  TermStandard_init term filter_name = Ok ts →
  term_verbatim term = [] →
  TermStandard_str ts
  = join nl (TermStandard_remarks term
             ++ map (standard_line filter_name term)
                  (GetAddressOfVersion (term_address term) 4))
  ∧ (GetAddressOfVersion (term_address term) 4 = [] →
     TermStandard_str ts = join nl (TermStandard_remarks term)).
Proof.
  intros Hinit Hverb.
  destruct (TermStandard_init_cases term filter_name) as [E | E];
    rewrite E in Hinit; [discriminate|]. injection Hinit as <-.
  assert (Hstr : TermStandard_str
                   {| ts_term := term; ts_filter_name := filter_name;
                      ts_options := [] |}
                 = join nl (TermStandard_remarks term
                            ++ map (standard_line filter_name term)
                                 (GetAddressOfVersion (term_address term) 4))).
  { unfold TermStandard_str. cbn [ts_term ts_filter_name].
    by rewrite verbatim_exit_none, standard_lines. }
  split; [exact Hstr|]. intros Hnone. rewrite Hstr, Hnone.
  cbn [map]. by rewrite app_nil_r.
Qed.

(** *** Protocol names *)

(** X13: names are looked up in lower case: two names that differ in case only
    resolve to the same number or both to none, and a name that does not
    resolve comes back as it was written, not in lower case. *)
Theorem FixupProtocol_ignores_case s s' :
  lower s = lower s' →
  (∀ n, FixupProtocol getprotobyname (PName s) = PNum n
        ↔ FixupProtocol getprotobyname (PName s') = PNum n)
  ∧ (FixupProtocol getprotobyname (PName s) = PName s
     ↔ FixupProtocol getprotobyname (PName s') = PName s').
Proof.
  intros Hcase. unfold FixupProtocol. rewrite Hcase.
  destruct (getprotobyname (lower s')); split; try intros n;
    split; congruence.
Qed.

(** *** Counting the lines of the object-group renderer *)

Lemma length_or_default {A} (l : list A) (x : A) :
  length (if nonempty l then l else [x]) = loop_length l.
Proof. unfold loop_length. destruct l; cbn [nonempty length]; lia. Qed.

(** X7: an object-group term always gets statement lines: one for every
    combination of a source address, a destination address, a source port,
    a destination port and a protocol, each list counted as one element
    when the term leaves it empty, and none is held back for its address
    family. *)
Theorem ObjectGroupTerm_statement_count term filter_name :
  length (ObjectGroupTerm_statements getprotobyname term)
  = (loop_length (term_source_address term)
     * loop_length (term_destination_address term)
     * loop_length (term_source_port term)
     * loop_length (term_destination_port term)
     * loop_length (term_protocol term))%nat
  ∧ (1 ≤ length (ObjectGroupTerm_statements getprotobyname term))%nat
  ∧ (term_verbatim term = [] →
     ObjectGroupTerm_str getprotobyname
       (ObjectGroupTerm_init term filter_name)
     = join nl (ObjectGroupTerm_remarks term
                ++ ObjectGroupTerm_statements getprotobyname term)).
Proof.
  assert (Hlen : length (ObjectGroupTerm_statements getprotobyname term)
                 = (loop_length (term_source_address term)
                    * loop_length (term_destination_address term)
                    * loop_length (term_source_port term)
                    * loop_length (term_destination_port term)
                    * loop_length (term_protocol term))%nat).
  { unfold ObjectGroupTerm_statements.
    rewrite (length_flat_map_const _ _
               (loop_length (term_destination_address term)
                * (loop_length (term_source_port term)
                   * (loop_length (term_destination_port term)
                      * (loop_length (term_protocol term) * 1))))%nat).
    - rewrite length_or_default. lia.
    - intros saddr. rewrite <- (length_or_default _ ANY).
      apply length_flat_map_const.
      intros daddr. rewrite <- (length_or_default _ (None : port)).
      apply length_flat_map_const.
      intros sport. rewrite <- (length_or_default _ (None : port)).
      apply length_flat_map_const.
      intros dport.
      replace (loop_length (term_protocol term))
        with (length (if nonempty (term_protocol term)
                      then map (FixupProtocol getprotobyname)
                             (term_protocol term)
                      else [PName "ip"])).
      + apply length_flat_map_const. by intros pr.
      + unfold loop_length. destruct (term_protocol term); [done|].
        cbn [nonempty]. rewrite length_map. cbn [length]. lia. }
  split; [exact Hlen|]. split.
  - rewrite Hlen. unfold loop_length.
    repeat apply Nat.mul_pos_pos; lia.
  - intros Hverb. unfold ObjectGroupTerm_str.
    cbn [ObjectGroupTerm_init ogt_term]. by rewrite verbatim_exit_none.
Qed.

(** *** The extended renderer without exclusion lists *)

Lemma filter_all {A} (p : A → bool) l :
  (∀ x, In x l → p x = true) → List.filter p l = l.
Proof.
  induction l as [|x l IH]; intros H; [done|]. cbn [List.filter].
  rewrite (H x) by (by left). f_equal. apply IH. intros y Hy. apply H.
  by right.
Qed.

Lemma Term_addresses_no_exclusion af addrs excl :
  GetAddressOfVersion excl af = [] →
  Term_addresses ExcludeAddrs af addrs excl
  = if nonempty addrs then map AddrObj (GetAddressOfVersion addrs af)
    else [AnyAddr].
Proof. intros H. unfold Term_addresses. by rewrite H. Qed.

Lemma Term_addresses_family af addrs excl a :
  GetAddressOfVersion excl af = [] →
  In a (Term_addresses ExcludeAddrs af addrs excl) →
  family_differs af a = false.
Proof.
  intros H. rewrite (Term_addresses_no_exclusion _ _ _ H).
  destruct (nonempty addrs).
  - intros (x & <- & Hx)%in_map_iff. unfold GetAddressOfVersion in Hx.
    apply filter_In in Hx as [_ Hx]. cbn [family_differs]. by rewrite Hx.
  - by intros [<- | []].
Qed.

Lemma Term_combinations_addresses self saddr daddr sport dport pr :
  In (saddr, daddr, sport, dport, pr)
    (Term_combinations getprotobyname ExcludeAddrs self) →
  In saddr (Term_source_address ExcludeAddrs self)
  ∧ In daddr (Term_destination_address ExcludeAddrs self).
Proof.
  unfold Term_combinations.
  intros (s & Hs & H)%in_flat_map. apply in_flat_map in H as (d & Hd & H).
  apply in_flat_map in H as (sp & _ & H).
  apply in_flat_map in H as (dp & _ & H).
  apply in_flat_map in H as (p & _ & [[= <- <- _ _ _] | []]). by split.
Qed.

(** X8: when the term has no exclusion addresses of the renderer's family,
    the exclusion of [nacaddr] is not called and no combination is held
    back: the statement lines are exactly as many as source addresses of
    that family (or one for ['any']) times destination addresses times
    source ports times destination ports times protocols.  So a term whose
    source addresses are all of the other family gets no statement line. *)
Theorem Term_statement_count_no_exclusion term af :
  let self := Term_init term af in
  GetAddressOfVersion (term_source_address_exclude term) (t_af self) = [] →
  GetAddressOfVersion (term_destination_address_exclude term) (t_af self) = [] →
  length (Term_statements getprotobyname ExcludeAddrs self)
  = ((if nonempty (term_source_address term)
      then length (GetAddressOfVersion (term_source_address term) (t_af self))
      else 1)
     * (if nonempty (term_destination_address term)
        then length (GetAddressOfVersion (term_destination_address term)
                       (t_af self))
        else 1)
     * loop_length (term_source_port term)
     * loop_length (term_destination_port term)
     * loop_length (term_protocol term))%nat
  ∧ (term_source_address term ≠ [] →
     GetAddressOfVersion (term_source_address term) (t_af self) = [] →
     Term_statements getprotobyname ExcludeAddrs self = []).
Proof.
  intros self Hse Hde.
  assert (Hall : List.filter
                   (fun c => negb (family_mismatch (t_af self) c))
                   (Term_combinations getprotobyname ExcludeAddrs self)
                 = Term_combinations getprotobyname ExcludeAddrs self).
  { apply filter_all. intros [[[[saddr daddr] sport] dport] pr] Hin.
    apply Term_combinations_addresses in Hin as [Hs Hd].
    cbn [family_mismatch].
    unfold Term_source_address in Hs. unfold Term_destination_address in Hd.
    rewrite (Term_addresses_family _ _ _ _ Hse Hs).
    by rewrite (Term_addresses_family _ _ _ _ Hde Hd). }
  assert (Hlen : length (Term_statements getprotobyname ExcludeAddrs self)
                 = ((if nonempty (term_source_address term)
                     then length (GetAddressOfVersion (term_source_address term)
                                    (t_af self))
                     else 1)
                    * (if nonempty (term_destination_address term)
                       then length (GetAddressOfVersion
                                      (term_destination_address term)
                                      (t_af self))
                       else 1)
                    * loop_length (term_source_port term)
                    * loop_length (term_destination_port term)
                    * loop_length (term_protocol term))%nat).
  { unfold self at 1. rewrite Term_statements_combinations.
    fold self. rewrite length_flat_map_if, Hall, length_Term_combinations.
    unfold Term_source_address, Term_destination_address.
    rewrite (Term_addresses_no_exclusion _ _ _ Hse).
    rewrite (Term_addresses_no_exclusion _ _ _ Hde).
    change (t_term self) with term.
    unfold Term_source_port, Term_destination_port, Term_protocol.
    rewrite !length_or_default.
    replace (length (if nonempty (term_protocol term)
                     then map (FixupProtocol getprotobyname)
                            (term_protocol term)
                     else [PName "ip"]))
      with (loop_length (term_protocol term)).
    2:{ unfold loop_length. destruct (term_protocol term); [done|].
        cbn [nonempty]. rewrite length_map. cbn [length]. lia. }
    destruct (nonempty (term_source_address term)),
      (nonempty (term_destination_address term));
      rewrite ?length_map; reflexivity. }
  split; [exact Hlen|].
  intros Hsome Hnone. apply length_zero_iff_nil. rewrite Hlen, Hnone.
  apply nonempty_true in Hsome. rewrite Hsome. reflexivity.
Qed.

(** *** The action table *)

Lemma string_app_assoc a b c : (a +:+ b) +:+ c = a +:+ b +:+ c.
Proof.
  induction a as [|x a IH]; [done|]. by rewrite !string_app_cons, IH.
Qed.

(** X9: [reject] and [reject-with-tcp-rst] are written as [deny]: a term with
    one of these actions is rendered, by each of the three renderers, to
    the very text of the same term with the action [deny].  Every statement
    line of the extended renderer starts with a blank and the entry of the
    action in the table, and with the word [None] when the table has no
    entry for the action. *)
Theorem reject_rendered_as_deny term action af filter_name :
  (action = "reject" ∨ action = "reject-with-tcp-rst" →
   Term_str getprotobyname ExcludeAddrs (Term_init (set_action term action) af)
   = Term_str getprotobyname ExcludeAddrs
       (Term_init (set_action term "deny") af)
   ∧ ObjectGroupTerm_str getprotobyname
       (ObjectGroupTerm_init (set_action term action) filter_name)
     = ObjectGroupTerm_str getprotobyname
         (ObjectGroupTerm_init (set_action term "deny") filter_name)
   ∧ TermStandard_str
       {| ts_term := set_action term action; ts_filter_name := filter_name;
          ts_options := [] |}
     = TermStandard_str
         {| ts_term := set_action term "deny"; ts_filter_name := filter_name;
            ts_options := [] |})
  ∧ Forall (fun line =>
              String.prefix
                (" " +:+ str_opt (dict_get _ACTION_TABLE (term_action term))
                 +:+ " ") line = true)
      (Term_statements getprotobyname ExcludeAddrs (Term_init term af))
  ∧ (dict_get _ACTION_TABLE (term_action term) = None →
     Forall (fun line => String.prefix " None " line = true)
       (Term_statements getprotobyname ExcludeAddrs (Term_init term af))).
Proof.
  assert (Hprefix :
            Forall (fun line =>
                      String.prefix
                        (" " +:+ str_opt (dict_get _ACTION_TABLE
                                            (term_action term))
                         +:+ " ") line = true)
              (Term_statements getprotobyname ExcludeAddrs
                 (Term_init term af))).
  { unfold Term_statements.
    repeat (apply Forall_flat_map, Forall_forall; intros ? _).
    destruct (do_output _ _ _); [|constructor].
    constructor; [|constructor]. unfold _TermletToStr.
    cbn [Term_init t_term].
    set (rest := str_proto _ +:+ _).
    set (word := str_opt _).
    replace (" " +:+ word +:+ " " +:+ rest)
      with ((" " +:+ word +:+ " ") +:+ rest)
      by (by rewrite !string_app_assoc).
    apply prefix_app. }
  split; [|split; [exact Hprefix|]].
  - intros [-> | ->]; repeat split; reflexivity.
  - intros Hnone. rewrite Hnone in Hprefix. exact Hprefix.
Qed.

(** *** What rendering can raise *)

Lemma for_r_add_term_not_standard ft name terms st :
  String.eqb ft "standard" = false →
  ∃ st', for_r (add_term getprotobyname ExcludeAddrs ft name) terms st = Ok st'.
Proof.
  intros Hft. revert st. induction terms as [|t terms IH]; intros st;
    cbn [for_r]; [eauto|].
  assert (∃ st1, add_term getprotobyname ExcludeAddrs ft name st t = Ok st1)
    as [st1 ->].
  { unfold add_term. destruct st as [l obj]. rewrite Hft.
    destruct (String.eqb ft "extended"); [eauto|].
    destruct (String.eqb ft "object-group"); [eauto|].
    destruct (String.eqb ft "inet6"); eauto. }
  cbn [mbind result_bind]. apply IH.
Qed.

Lemma for_r_add_term_standard name terms st :
  (Exists (fun t => TermStandard_init t name = Raise StandardAclTermError)
     terms
   ∧ for_r (add_term getprotobyname ExcludeAddrs "standard" name) terms st
     = Raise StandardAclTermError)
  ∨ (¬ Exists (fun t => TermStandard_init t name = Raise StandardAclTermError)
         terms
     ∧ ∃ st', for_r (add_term getprotobyname ExcludeAddrs "standard" name)
                terms st = Ok st').
Proof.
  revert st. induction terms as [|t terms IH]; intros [l obj]; cbn [for_r].
  - right. split; [by intros H; inversion H | eauto].
  - rewrite add_term_standard.
    destruct (TermStandard_init_cases t name) as [E | E]; rewrite E;
      cbn [mbind result_bind].
    + left. split; [by constructor | done].
    + destruct (IH (l ++ [TermStandard_str
                            {| ts_term := t; ts_filter_name := name;
                               ts_options := [] |}], obj))
        as [[Hex Hr] | [Hnex Hr]]; [left | right].
      * split; [by constructor 2 | exact Hr].
      * split; [|exact Hr]. intros H. inversion H; subst; congruence.
Qed.

Lemma render_filter_type_raises header terms name st ft e :
  render_filter_type getprotobyname ExcludeAddrs header terms name st ft
  = Raise e ↔
  (e = UnsupportedCiscoAccessListError
   ∧ ((is_ ft "extended" = true ∧ numbered_1_99 name)
      ∨ (str_text ft = "standard" ∧ ¬ numbered_1_99 name)))
  ∨ (e = StandardAclTermError ∧ str_text ft = "standard"
     ∧ numbered_1_99 name
     ∧ Exists (fun t => TermStandard_init t name = Raise StandardAclTermError)
         terms).
Proof.
  destruct st as [l obj]. rewrite render_filter_type_unfold.
  pose proof (numbered_1_99_test name) as Htest.
  assert (Hexcl : is_ ft "extended" = true → str_text ft = "standard" → False).
  { intros ->%is_literal. discriminate. }
  destruct (isdigit name && ((1 <=? int name) && (int name <=? 99))) eqn:Et.
  - assert (Hnum : numbered_1_99 name) by by apply Htest.
    destruct (is_ ft "extended") eqn:Eis; cbn [andb negb].
    { split.
      - intros [= <-]. left. split; [done|]. by left.
      - intros [[-> _] | (_ & Hstd & _)]; [done|]. by destruct Hexcl. }
    rewrite andb_false_r.
    destruct (String.eqb_spec (str_text ft) "standard") as [Hstd|Hstd].
    + rewrite Hstd.
      match goal with
      | |- context [for_r ?b terms ?s] =>
          destruct (for_r_add_term_standard name terms s)
            as [[Hex ->] | [Hnex [[l' obj'] ->]]]
      end.
      * split; [intros [= <-]; right; done|].
        intros [[_ [[[=] _] | [_ Hn]]] | (-> & _)]; done.
      * split; [discriminate|].
        intros [[_ [[[=] _] | [_ Hn]]] | (_ & _ & _ & Hex)]; done.
    + match goal with
      | |- context [for_r ?b terms ?s] =>
          destruct (for_r_add_term_not_standard (str_text ft) name terms s)
            as [[l' obj'] ->]
      end; [by apply String.eqb_neq|].
      split; [discriminate|].
      intros [[_ [[? _] | [? _]]] | (_ & ? & _)]; done.
  - assert (Hnum : ¬ numbered_1_99 name).
    { intros H. apply Htest in H. congruence. }
    rewrite andb_false_r. cbn [negb]. rewrite andb_true_r.
    destruct (String.eqb_spec (str_text ft) "standard") as [Hstd|Hstd].
    { split.
      - intros [= <-]. left. split; [done|]. by right.
      - intros [[-> _] | (_ & _ & Hn & _)]; done. }
    match goal with
    | |- context [for_r ?b terms ?s] =>
        destruct (for_r_add_term_not_standard (str_text ft) name terms s)
          as [[l' obj'] ->]
    end; [by apply String.eqb_neq|].
    split; [discriminate|].
    intros [[_ [[_ ?] | [? _]]] | (_ & ? & _)]; done.
Qed.

Lemma for_r_passes_raise header terms name st ty e :
  In (str_text ty) good_filters →
  for_r (render_filter_type getprotobyname ExcludeAddrs header terms name)
    (filter_list ty) st = Raise e ↔
  (e = UnsupportedCiscoAccessListError
   ∧ (((is_ ty "extended" = true ∨ str_text ty = "mixed")
       ∧ numbered_1_99 name)
      ∨ (str_text ty = "standard" ∧ ¬ numbered_1_99 name)))
  ∨ (e = StandardAclTermError ∧ str_text ty = "standard"
     ∧ numbered_1_99 name
     ∧ Exists (fun t => TermStandard_init t name = Raise StandardAclTermError)
         terms).
Proof.
  intros Hgood.
  assert (Hone : ∀ ft,
            for_r (render_filter_type getprotobyname ExcludeAddrs header
                     terms name) [ft] st = Raise e
            ↔ render_filter_type getprotobyname ExcludeAddrs header terms
                name st ft = Raise e).
  { intros ft. cbn [for_r].
    destruct (render_filter_type _ _ _ _ _ _ _); cbn [mbind result_bind];
      split; congruence. }
  destruct (String.eqb_spec (str_text ty) "mixed") as [Hmixed|Hmixed].
  - assert (Hnot : is_ ty "extended" = false).
    { apply is_other. rewrite Hmixed. discriminate. }
    rewrite (filter_list_mixed _ Hmixed). cbn [for_r].
    destruct (render_filter_type _ _ _ _ _ _ (literal "extended"))
      as [st1|e1] eqn:E1; cbn [mbind result_bind].
    + destruct (render_filter_type _ _ _ _ _ st1 (literal "inet6"))
        as [st2|e2] eqn:E2; cbn [mbind result_bind].
      * split; [discriminate|]. intros H.
        assert (render_filter_type getprotobyname ExcludeAddrs header terms
                  name st (literal "extended") = Raise e) as Hr.
        { apply render_filter_type_raises.
          destruct H as [[-> [[_ Hn] | [Hs _]]] | (_ & Hs & _)];
            [| rewrite Hmixed in Hs; discriminate
             | rewrite Hmixed in Hs; discriminate].
          left. split; [done|]. left. by split. }
        congruence.
      * apply render_filter_type_raises in E2.
        destruct E2 as [[_ [[Hl _] | [Hs _]]] | (_ & Hs & _)]; discriminate.
    + pose proof E1 as E1'. apply render_filter_type_raises in E1'.
      destruct E1' as [[-> [[_ Hn] | [Hs _]]] | (_ & Hs & _)];
        try discriminate.
      split.
      * intros [= <-]. left. split; [done|]. left. split; [by right | done].
      * intros [[-> _] | (_ & Hs & _)]; [done|].
        rewrite Hmixed in Hs. discriminate.
  - rewrite (filter_list_other _ Hmixed). rewrite Hone.
    rewrite render_filter_type_raises. intuition congruence.
Qed.

(** X1: what [Cisco.__str__] can raise.  Over a policy without filters it
    raises [TypeError], and only then.  Otherwise the first filter decides:
    [UnsupportedCiscoAccessListError] when its subtype is none of the five,
    when its name is a number in 1..99 and its subtype is mixed or is the
    renderer's own literal ['extended'] (the word taken by default), or
    when it is standard with any other name; [StandardAclTermError] when it
    is standard with an accepted name and the constructor of the standard
    term refuses one of its terms; and nothing else - an object-group or
    inet6 filter raises nothing, and neither does an extended filter whose
    subtype word was built at run time. *)
Theorem Cisco_str_raises c :
  (Cisco_str getprotobyname ExcludeAddrs c = Raise TypeError
   ↔ filters (policy c) = [])
  ∧ ∀ header terms rest e,
      filters (policy c) = (header, terms) :: rest →
      (Cisco_str getprotobyname ExcludeAddrs c = Raise e ↔
       (e = UnsupportedCiscoAccessListError
        ∧ (¬ In (str_text (resolved_filter_type header)) good_filters
           ∨ ((is_ (resolved_filter_type header) "extended" = true
               ∨ str_text (resolved_filter_type header) = "mixed")
              ∧ numbered_1_99 (header_filter_name header))
           ∨ (str_text (resolved_filter_type header) = "standard"
              ∧ ¬ numbered_1_99 (header_filter_name header))))
       ∨ (e = StandardAclTermError
          ∧ str_text (resolved_filter_type header) = "standard"
          ∧ numbered_1_99 (header_filter_name header)
          ∧ Exists (fun t =>
                      TermStandard_init t (header_filter_name header)
                      = Raise StandardAclTermError) terms)).
Proof.
  destruct c as [[fs]]. cbn [policy filters].
  assert (Hcons : ∀ header terms rest e,
            fs = (header, terms) :: rest →
            (Cisco_str getprotobyname ExcludeAddrs
               {| policy := {| filters := fs |} |} = Raise e ↔
             (e = UnsupportedCiscoAccessListError
              ∧ (¬ In (str_text (resolved_filter_type header)) good_filters
                 ∨ ((is_ (resolved_filter_type header) "extended" = true
                     ∨ str_text (resolved_filter_type header) = "mixed")
                    ∧ numbered_1_99 (header_filter_name header))
                 ∨ (str_text (resolved_filter_type header) = "standard"
                    ∧ ¬ numbered_1_99 (header_filter_name header))))
             ∨ (e = StandardAclTermError
                ∧ str_text (resolved_filter_type header) = "standard"
                ∧ numbered_1_99 (header_filter_name header)
                ∧ Exists (fun t =>
                            TermStandard_init t (header_filter_name header)
                            = Raise StandardAclTermError) terms))).
  { intros header terms rest e ->.
    rewrite Cisco_str_cons, filter_body_unfold.
    destruct (str_in (str_text (resolved_filter_type header)) good_filters)
      eqn:Egood; cbn [negb].
    - apply str_in_true in Egood.
      pose proof (for_r_passes_raise header terms
                    (header_filter_name header) ([], ObjectGroup_init)
                    (resolved_filter_type header) e Egood) as Hpass.
      destruct (for_r _ _ _) as [st'|e'].
      + split; [discriminate|]. intros H.
        assert (@Ok assembly st' = Raise e) by (apply Hpass; tauto).
        discriminate.
      + destruct Hpass as [H1 H2]. split.
        * intros [= ->]. specialize (H1 eq_refl). tauto.
        * intros H. assert (@Raise assembly e' = Raise e) as [= ->]; [|done].
          apply H2. tauto.
    - assert (Hbad : ¬ In (str_text (resolved_filter_type header))
                         good_filters).
      { rewrite <- str_in_true. congruence. }
      split.
      + intros [= <-]. left. split; [done | by left].
      + intros [[-> _] | (_ & Hstd & _)]; [done|].
        destruct Hbad. apply good_filters_cases. auto. }
  split; [|exact Hcons].
  destruct fs as [|[header terms] rest].
  - split; [done | reflexivity].
  - split; [|discriminate]. intros H.
    apply (Hcons header terms rest TypeError eq_refl) in H.
    destruct H as [[[=] _] | [[=] _]].
Qed.
(** *** Mixed filters *)

Lemma pass_lines_render header terms ft :
  String.eqb (str_text ft) "object-group" = false →
  render_filter_type getprotobyname ExcludeAddrs header terms
    (header_filter_name header) ([], ObjectGroup_init) ft
  = match pass_lines getprotobyname ExcludeAddrs header terms ft with
    | Ok l => Ok (l, ObjectGroup_init)
    | Raise e => Raise e
    end.
Proof.
  intros Hft. unfold pass_lines.
  destruct (render_filter_type _ _ _ _ _ _ _) as [[l obj]|e] eqn:E;
    cbn [mbind result_bind]; [|done].
  apply render_filter_type_collector in E. rewrite Hft in E. by subst.
Qed.

Lemma pass_lines_header header header' terms ft :
  header_filter_name header' = header_filter_name header →
  header_comment header' = header_comment header →
  pass_lines getprotobyname ExcludeAddrs header' terms ft
  = pass_lines getprotobyname ExcludeAddrs header terms ft.
Proof.
  intros Hname Hcomment. unfold pass_lines.
  rewrite !render_filter_type_unfold. unfold header_remarks.
  rewrite Hname, Hcomment. reflexivity.
Qed.

(** X2: a mixed filter is the extended filter followed by the inet6 filter:
    where [l4] and [l6] are the lines the extended and the inet6 pass put
    after the two marker lines for a filter of that one subtype with the
    same name, header comments and terms, the mixed filter renders to the
    marker lines, [l4] and [l6]; and it raises what the extended pass
    raises.  The extended pass of a mixed filter is the pass of a filter
    whose subtype word is the renderer's own literal ['extended']. *)
Theorem mixed_filter_document header terms :
  str_text (resolved_filter_type header) = "mixed" →
  filter_body getprotobyname ExcludeAddrs (header, terms) ([], ObjectGroup_init)
  = (l4 ← pass_lines getprotobyname ExcludeAddrs header terms
            (literal "extended");
     l6 ← pass_lines getprotobyname ExcludeAddrs header terms
            (literal "inet6");
     Ok (Return (join nl (target_header ++ l4 ++ l6))))
  ∧ ∀ header' ft,
      is_ (resolved_filter_type header') "extended" = true
      ∧ ft = literal "extended"
      ∨ str_text (resolved_filter_type header') = "inet6"
        ∧ ft = literal "inet6" →
      header_filter_name header' = header_filter_name header →
      header_comment header' = header_comment header →
      filter_body getprotobyname ExcludeAddrs (header', terms)
        ([], ObjectGroup_init)
      = (l ← pass_lines getprotobyname ExcludeAddrs header terms ft;
         Ok (Return (join nl (target_header ++ l)))).
Proof.
  intros Hmixed. split.
  - rewrite filter_body_unfold, (filter_list_mixed _ Hmixed), Hmixed.
    change (negb (str_in "mixed" good_filters)) with false.
    cbv iota. cbn [for_r].
    rewrite (pass_lines_render header terms (literal "extended"))
      by reflexivity.
    destruct (pass_lines _ _ header terms (literal "extended")) as [l4|e];
      cbn [mbind result_bind]; [|done].
    rewrite <- (app_nil_r l4) at 1.
    rewrite render_filter_type_frame.
    rewrite (pass_lines_render header terms (literal "inet6")) by reflexivity.
    destruct (pass_lines _ _ header terms (literal "inet6")) as [l6|e];
      cbn [mbind result_bind]; [|done].
    reflexivity.
  - intros header' ft Hty Hname Hcomment.
    rewrite filter_body_unfold.
    rewrite <- (pass_lines_header header header' terms ft Hname Hcomment).
    destruct Hty as [[Hlit%is_literal ->] | [Htext ->]].
    + rewrite Hlit.
      change (negb (str_in (str_text (literal "extended")) good_filters))
        with false.
      change (filter_list (literal "extended")) with [literal "extended"].
      cbv iota. cbn [for_r].
      rewrite (pass_lines_render header' terms (literal "extended"))
        by reflexivity.
      by destruct (pass_lines _ _ header' terms (literal "extended")).
    + rewrite filter_list_other by (rewrite Htext; discriminate).
      rewrite Htext.
      change (negb (str_in "inet6" good_filters)) with false.
      cbv iota. cbn [for_r].
      rewrite (pass_lines_render header' terms) by (by rewrite Htext).
      unfold pass_lines. rewrite !(render_inet6 _ _ _ _ _ _ Htext).
      by rewrite (render_inet6 _ _ _ _ _ (literal "inet6") eq_refl).
Qed.

(** *** The marker lines come first *)

Lemma join_two_prefix a b rest :
  String.prefix (a +:+ nl +:+ b) (join nl (a :: b :: rest)) = true.
Proof.
  change (join nl (a :: b :: rest)) with (a +:+ nl +:+ join nl (b :: rest)).
  destruct rest as [|c rest].
  - cbn [join]. rewrite <- (append_empty_r (a +:+ nl +:+ b)) at 2.
    apply prefix_app.
  - change (join nl (b :: c :: rest)) with (b +:+ nl +:+ join nl (c :: rest)).
    rewrite <- !string_app_assoc. rewrite (string_app_assoc a nl b).
    rewrite string_app_assoc. apply prefix_app.
Qed.

(** X3: whatever the policy, a rendered document starts with the two marker
    lines [! $Id:$] and [! $Date:$]; the object-group definitions, when
    there are any, come after them. *)
Theorem Cisco_str_header_first c doc :
  Cisco_str getprotobyname ExcludeAddrs c = Ok doc →
  String.prefix ("! $Id:$" +:+ nl +:+ "! $Date:$") doc = true.
Proof.
  destruct c as [[[|[header terms] rest]]]; [discriminate|].
  rewrite Cisco_str_cons, filter_body_unfold.
  destruct (negb _); [discriminate|].
  destruct (for_r _ _ _) as [[target obj_target]|e]; [|discriminate].
  intros [= <-]. unfold assemble, target_header.
  cbn [app]. apply join_two_prefix.
Qed.

(** *** Object-group filters *)

Lemma for_r_passes_collector header terms name fl l obj l' obj' :
  Forall (fun ft => String.eqb (str_text ft) "object-group" = false) fl →
  for_r (render_filter_type getprotobyname ExcludeAddrs header terms name)
    fl (l, obj) = Ok (l', obj') →
  obj' = obj.
Proof.
  intros Hfl. revert l obj. induction Hfl as [|ft fl Hft _ IH];
    intros l obj; cbn [for_r]; [by intros [= _ <-]|].
  destruct (render_filter_type _ _ _ _ _ _ _) as [[l1 obj1]|e] eqn:E;
    cbn [mbind result_bind]; [|discriminate].
  apply render_filter_type_collector in E. rewrite Hft in E. subst obj1.
  apply IH.
Qed.

(** X4: an object-group filter raises nothing, whatever its name and terms.
    Its document is the two marker lines, then - if the filter has a term -
    the group definitions collected from all its terms, then the preamble
    of an extended access list, the remarks of the header, one rendered
    text for each term, and a closing line break.  A filter of another
    subtype collects nothing: its document has no group definitions. *)
Theorem object_group_filter_document header terms :
  (str_text (resolved_filter_type header) = "object-group" →
   filter_body getprotobyname ExcludeAddrs (header, terms)
     ([], ObjectGroup_init)
   = Ok (Return
           (join nl
              (target_header
               ++ (if nonempty terms
                   then [join nl (ObjectGroup_ret_str terms)] else [])
               ++ ["no ip access-list extended " +:+ header_filter_name header;
                   "ip access-list extended " +:+ header_filter_name header]
               ++ flat_map (fun comment =>
                              map (fun line => "remark " +:+ line)
                                (split_nl comment))
                    (header_comment header)
               ++ map (fun t =>
                         ObjectGroupTerm_str getprotobyname
                           (ObjectGroupTerm_init t (header_filter_name header)))
                    terms
               ++ [nl]))))
  ∧ (str_text (resolved_filter_type header) ≠ "object-group" →
     ∀ doc,
       filter_body getprotobyname ExcludeAddrs (header, terms)
         ([], ObjectGroup_init) = Ok (Return doc) →
       ∃ target,
         for_r (render_filter_type getprotobyname ExcludeAddrs header terms
                  (header_filter_name header))
           (filter_list (resolved_filter_type header)) ([], ObjectGroup_init)
         = Ok (target, ObjectGroup_init)
         ∧ doc = join nl (target_header ++ target)).
Proof.
  split.
  - intros Hty. rewrite filter_body_unfold.
    rewrite filter_list_other by (rewrite Hty; discriminate).
    rewrite Hty.
    change (negb (str_in "object-group" good_filters)) with false.
    cbv iota. cbn [for_r].
    rewrite (render_object_group _ _ _ _ _ _ Hty).
    cbn [mbind result_bind]. unfold assemble, ObjectGroup_valid.
    cbn [og_terms og_filter_name ObjectGroup_init app ObjectGroup_str].
    do 3 f_equal. by destruct terms.
  - intros Hty doc. rewrite filter_body_unfold.
    generalize dependent (resolved_filter_type header). intros ty Hty.
    destruct (str_in (str_text ty) good_filters) eqn:Egood;
      [|discriminate]. cbn [negb].
    destruct (for_r _ _ _) as [[target obj]|e] eqn:E; [|discriminate].
    intros [= <-]. exists target.
    assert (obj = ObjectGroup_init) as ->.
    { eapply for_r_passes_collector; [|exact E].
      destruct (String.eqb_spec (str_text ty) "mixed") as [Hm|Hm].
      - rewrite (filter_list_mixed _ Hm). by repeat constructor.
      - rewrite (filter_list_other _ Hm). repeat constructor.
        by apply String.eqb_neq. }
    split; [done|]. reflexivity.
Qed.
End Properties.

(** ** The properties at sample policies *)

(** C10: [FixupProtocol] maps a number to itself, an unknown name to
    itself and a known name, in any case, to its number; but the literal
    ['ip'] is itself a name of the protocol database (number 0), so ['ip']
    comes back as the number 0 and not unchanged, against the function's
    docstring. *)
Theorem FixupProtocol_ip_is_resolved :
  FixupProtocol system_getprotobyname (PName "ip") = PNum 0
  ∧ FixupProtocol system_getprotobyname (PName "ip") ≠ PName "ip"
  ∧ FixupProtocol system_getprotobyname (PName "TCP") = PNum 6
  ∧ FixupProtocol system_getprotobyname (PName "no-such-protocol")
    = PName "no-such-protocol"
  ∧ FixupProtocol system_getprotobyname (PNum 17) = PNum 17.
Proof. repeat split; try reflexivity. discriminate. Qed.

(** The six ways in which a standard term is refused, one at a time. *)
Example TermStandard_init_six_cases :
  let bare := sample_term "t" "accept" [] [] [] in
  let refused term :=
    TermStandard_init term "50" = Raise StandardAclTermError in
  (∃ ts, TermStandard_init bare "50" = Ok ts)
  ∧ refused (sample_term "t" "accept" [PName "tcp"] [] [])
  ∧ refused (set_source_address bare [internal_v4])
  ∧ refused (sample_term "t" "accept" [] [] ["established"])
  ∧ refused (sample_term "t" "accept" [] [Some (80, 80)] [])
  ∧ refused {| term_name := "t"; term_comment := []; term_action := "accept";
               term_protocol := []; term_address := [];
               term_source_address := []; term_source_address_exclude := [];
               term_destination_address := [];
               term_destination_address_exclude := [];
               term_source_port := []; term_destination_port := [];
               term_option := []; term_verbatim := [];
               term_counter := Some "web-counter"; term_logging := false |}
  ∧ refused {| term_name := "t"; term_comment := []; term_action := "accept";
               term_protocol := []; term_address := [];
               term_source_address := []; term_source_address_exclude := [];
               term_destination_address := [];
               term_destination_address_exclude := [];
               term_source_port := []; term_destination_port := [];
               term_option := []; term_verbatim := [];
               term_counter := None; term_logging := true |}.
Proof. cbv zeta. split; [eexists; reflexivity | repeat split]. Qed.

(** C1, where the sentence of the specification fails: the first filter
    of a policy with two filters is named ["50"] and extended by default,
    so nothing is returned, the renderer raises; and where the first filter
    is [test-filter] with its subtype word cut out of a policy text, the
    document has the remark and the statement of the term but no line that
    declares the access list. *)
Lemma Cisco_str_first_filter_raises :
  Cisco_str system_getprotobyname no_exclusion
    {| policy := {| filters := [default_filter_50; test_filter] |} |}
  = Raise UnsupportedCiscoAccessListError
  ∧ Cisco_str system_getprotobyname no_exclusion
      {| policy := {| filters := [parsed_test_filter; second_filter] |} |}
    = Ok (join nl parsed_web_document)
  ∧ split_nl (join nl parsed_web_document) = parsed_web_document
  ∧ existsb (contains "access-list") parsed_web_document = false.
Proof. repeat split. Qed.

(** C1 at the policy with [test_filter] and [second_filter]: the text is
    the text of [test_filter] alone, the ten lines of [web_document]. *)
Lemma Cisco_str_first_filter_only_witness :
  Cisco_str system_getprotobyname no_exclusion
    {| policy := {| filters := [test_filter; second_filter] |} |}
  = Cisco_str system_getprotobyname no_exclusion
      {| policy := {| filters := [test_filter] |} |}
  ∧ ∃ preamble,
      join nl web_document
      = join nl
          (marker_lines
           ++ block preamble (fst test_filter)
                (extended_texts system_getprotobyname no_exclusion
                   [allow_web]))
      ∧ preamble = extended_preamble "test-filter".
Proof.
  destruct (Cisco_str_first_filter_only system_getprotobyname no_exclusion
              (fst test_filter) (snd test_filter) second_filter [])
    as [Hfirst Hdoc].
  split; [exact Hfirst|].
  destruct (Hdoc (join nl web_document) eq_refl) as (Hext & _).
  destruct (Hext eq_refl) as (preamble & Hlines & Hpreamble).
  exists preamble. split; [exact Hlines | exact (Hpreamble eq_refl)].
Defined.

(** C2, where the sentence of the specification fails: the first header of
    [two_platform_policy] names ['cisco'], and construction raises
    [NoCiscoPolicyError] all the same, because the second does not. *)
Lemma Cisco_init_two_platforms_raises :
  (∃ h, In h (headers two_platform_policy) ∧ In "cisco" (header_platforms h))
  ∧ Cisco_init two_platform_policy = Raise NoCiscoPolicyError.
Proof.
  split; [|reflexivity].
  exists (fst test_filter). split; left; reflexivity.
Qed.

Lemma numbered_50 : numbered_1_99 "50".
Proof. split; [reflexivity | by vm_compute]. Defined.

(** C3 at the name ["50"]: refused as an extended filter when the subtype
    is taken by default or written as a literal, and accepted as a
    standard filter; but rendered, without a line that declares the access
    list, as an extended filter whose subtype word is cut out of a policy
    text, and rendered as an object-group filter. *)
Lemma filter_name_check_witness :
  Cisco_str system_getprotobyname no_exclusion
    {| policy := {| filters := [default_filter_50] |} |}
  = Raise UnsupportedCiscoAccessListError
  ∧ Cisco_str system_getprotobyname no_exclusion
      {| policy := {| filters := [filter_50 "extended"] |} |}
    = Raise UnsupportedCiscoAccessListError
  ∧ Cisco_str system_getprotobyname no_exclusion
      {| policy := {| filters := [filter_50 "standard"] |} |}
    ≠ Raise UnsupportedCiscoAccessListError
  ∧ Cisco_str system_getprotobyname no_exclusion
      {| policy := {| filters := [parsed_filter_50 "extended"] |} |}
    = Ok (join nl ["! $Id:$"; "! $Date:$"; nl])
  ∧ Cisco_str system_getprotobyname no_exclusion
      {| policy := {| filters := [filter_50 "object-group"] |} |}
    = Ok (join nl [ "! $Id:$"; "! $Date:$";
                    "no ip access-list extended 50";
                    "ip access-list extended 50"; nl ])
  ∧ Cisco_str system_getprotobyname no_exclusion
      {| policy := {| filters := [parsed_filter_50 "object-group"] |} |}
    = Ok (join nl [ "! $Id:$"; "! $Date:$";
                    "no ip access-list extended 50";
                    "ip access-list extended 50"; nl ]).
Proof.
  split; [|split; [|split; [|split; [|split]]]].
  - exact (proj1 (filter_name_check system_getprotobyname no_exclusion
                    (fst default_filter_50) [] [])
             eq_refl numbered_50).
  - exact (proj1 (filter_name_check system_getprotobyname no_exclusion
                    (fst (filter_50 "extended")) [] [])
             eq_refl numbered_50).
  - exact (proj1 (proj2 (proj2
                    (filter_name_check system_getprotobyname no_exclusion
                       (fst (filter_50 "standard")) [] [])))
             eq_refl numbered_50).
  - exact (proj1 (proj2 (proj2 (proj2
                    (filter_name_check system_getprotobyname no_exclusion
                       (fst (parsed_filter_50 "extended")) [] []))))
             eq_refl eq_refl).
  - exact (proj2 (proj2 (proj2 (proj2
                    (filter_name_check system_getprotobyname no_exclusion
                       (fst (filter_50 "object-group")) [] []))))
             eq_refl).
  - exact (proj2 (proj2 (proj2 (proj2
                    (filter_name_check system_getprotobyname no_exclusion
                       (fst (parsed_filter_50 "object-group")) [] []))))
             eq_refl).
Defined.

(** The standard filter ["50"] with a /24 address is rendered with the
    network and its host mask. *)
Example standard_50_document :
  render system_getprotobyname no_exclusion standard_50_policy
  = Ok (join nl [ "! $Id:$"; "! $Date:$";
                  "no ip access-list 50";
                  "remark office" +:+ nl
                  +:+ "access-list 50 permit 192.168.1.0 0.0.0.255";
                  nl ]).
Proof. reflexivity. Qed.

(** C4, where the sentence of the specification fails: a term whose options
    name [established] twice gets the range (1024, 65535) twice. *)
Lemma established_twice_appends_twice :
  term_option twice_established = ["established"; "established"]
  ∧ term_destination_port twice_established = []
  ∧ Cisco_init
      {| filters := [(sample_header "cisco" "f" ["cisco"], [twice_established])] |}
    = Ok {| policy :=
              {| filters :=
                   [(sample_header "cisco" "f" ["cisco"],
                     [set_destination_port twice_established
                        [Some (1024, 65535); Some (1024, 65535)]])] |} |}.
Proof. repeat split. Qed.

(** C4 at a TCP term and a UDP term that both carry [established]: the
    keyword is in the one statement line of the first and in no option of
    the second. *)
Lemma established_option_witness :
  (In "established"
     (Term_options system_getprotobyname (Term_init tcp_established 4))
   ∧ Forall (fun line => contains "established" line = true)
       (Term_statements system_getprotobyname no_exclusion
          (Term_init tcp_established 4)))
  ∧ (Term_options system_getprotobyname (Term_init udp_established 4) = []
     ∧ ¬ In "established"
           (Term_options system_getprotobyname (Term_init udp_established 4))).
Proof.
  split.
  - apply (proj1 (proj2 (established_option system_getprotobyname no_exclusion
                           tcp_established 4))).
    + left. reflexivity.
    + exists "established". split; [left; reflexivity | left; reflexivity].
  - apply (proj2 (proj2 (established_option system_getprotobyname no_exclusion
                           udp_established 4))).
    vm_compute. intros [H | []]. discriminate H.
Defined.

(** C6 at five terms with one source token and one port pair: one address
    group and one port group. *)
Lemma ObjectGroup_groups_once_witness :
  occurrences (address_group_header "INTERNAL")
    (ObjectGroup_ret_str shared_group_terms) = 1%nat
  ∧ occurrences (port_group_header (port_key 80 80))
      (ObjectGroup_ret_str shared_group_terms) = 1%nat.
Proof.
  destruct (ObjectGroup_groups_once shared_group_terms) as (_ & _ & H & _).
  destruct (H (nth 4 shared_group_terms allow_web)) as (Hs & _ & Hp).
  - do 4 right. left. reflexivity.
  - split.
    + exact (Hs internal_v4 [] eq_refl).
    + apply Hp. left. reflexivity.
Defined.

(** C7, where the sentence of the specification fails: no line of the
    rendered text ends in [permit tcp any eq 80], and none contains [permit
    tcp]. *)
Lemma web_policy_has_no_tcp_line :
  render system_getprotobyname no_exclusion web_policy
  = Ok (join nl web_document)
  ∧ existsb (endswith "permit tcp any eq 80") web_document = false
  ∧ existsb (contains "permit tcp") web_document = false
  ∧ List.filter (contains "permit") web_document
    = [" permit 6 any  any eq 80 "].
Proof. repeat split. Qed.

(** C7 with the protocol database of the system, at [web_policy]. *)
Lemma web_policy_document_witness :
  Cisco_str system_getprotobyname no_exclusion {| policy := web_policy |}
  = Ok (join nl web_document)
  ∧ split_nl (join nl web_document) = web_document
  ∧ In "ip access-list extended test-filter" web_document
  ∧ In "remark allow-web" web_document
  ∧ In " permit 6 any  any eq 80 " web_document.
Proof.
  destruct (web_policy_document system_getprotobyname no_exclusion
              (fst test_filter) eq_refl eq_refl eq_refl)
    as (preamble & Hdoc & Hpreamble).
  rewrite (Hpreamble eq_refl) in Hdoc.
  split; [exact Hdoc|]. split; [reflexivity|].
  repeat split; apply str_in_true; reflexivity.
Defined.

(** C8 at [multi_term], rendered for IPv4: one source address of that
    family, ['any'] as destination, no source port, two destination ports
    and two protocols give four combinations and four statement lines. *)
Lemma Term_statement_count_witness :
  term_verbatim multi_term = []
  ∧ length (term_combinations system_getprotobyname no_exclusion multi_term 4)
    = (1 * 1 * 1 * 2 * 2)%nat
  ∧ Term_str system_getprotobyname no_exclusion (Term_init multi_term 4)
    = join nl [ nl; "remark multi";
                " permit 6 10.0.0.0 0.255.255.255  any eq 80 ";
                " permit 17 10.0.0.0 0.255.255.255  any eq 80 ";
                " permit 6 10.0.0.0 0.255.255.255  any range 8000 8080 ";
                " permit 17 10.0.0.0 0.255.255.255  any range 8000 8080 " ].
Proof.
  split; [reflexivity|].
  destruct (Term_statement_count system_getprotobyname no_exclusion
              multi_term 4 eq_refl) as (Htext & Hlen & _).
  split; [exact Hlen | exact Htext].
Defined.

(** C9, where the sentence of the specification fails: a term whose only
    verbatim entry is for ['juniper'] is not rendered as the same term
    without verbatim entries; its output stops after the remark line. *)
Lemma verbatim_for_other_platform_stops_rendering :
  no_cisco_entry (term_verbatim allow_web_juniper)
  ∧ Term_str system_getprotobyname no_exclusion (Term_init allow_web 4)
    = join nl [nl; "remark allow-web"; " permit 6 any  any eq 80 "]
  ∧ Term_str system_getprotobyname no_exclusion (Term_init allow_web_juniper 4)
    = join nl [nl; "remark allow-web"].
Proof.
  split; [|split; reflexivity].
  constructor; [discriminate | constructor].
Qed.

(** C9 at [allow_web_cisco]: the three renderers give the remark line and
    the verbatim text. *)
Lemma verbatim_skips_rendering_witness :
  Term_str system_getprotobyname no_exclusion (Term_init allow_web_cisco 4)
  = join nl [nl; "remark allow-web"; " permit tcp any any eq www"]
  ∧ ObjectGroupTerm_str system_getprotobyname
      (ObjectGroupTerm_init allow_web_cisco "test-filter")
    = join nl [nl; "remark allow-web"; " permit tcp any any eq www"].
Proof.
  destruct (verbatim_skips_rendering system_getprotobyname no_exclusion
              allow_web_cisco 4 "test-filter")
    as (texts & Hsub & Hfirst & _ & H1 & H2 & _); [discriminate|].
  destruct (Hfirst _ _ eq_refl) as [more ->].
  apply sublist_length in Hsub. destruct more; [|cbn in Hsub; lia].
  split; [exact H1 | exact H2].
Defined.

(** ** Further properties at sample policies *)

(** A sixth term with the token and port pair of [shared_group_terms]
    leaves the group definitions as they are. *)
Lemma ObjectGroup_defined_groups_kept_witness :
  ObjectGroup_ret_str (shared_group_terms ++ [nth 0 shared_group_terms allow_web])
  = ObjectGroup_ret_str shared_group_terms.
Proof.
  destruct (ObjectGroup_defined_groups_kept shared_group_terms
              (nth 0 shared_group_terms allow_web)) as [Hkept Hdefined].
  apply Hkept, Hdefined. left. reflexivity.
Defined.

Lemma port_key_inj_witness : 1024 = 1024 ∧ 65535 = 65535.
Proof.
  apply (port_key_inj 1024 65535 1024 65535); [lia | lia | reflexivity].
Defined.

(** Constructing twice over [twice_established] leaves four ranges. *)
Lemma Cisco_init_again_witness :
  ∃ c, Cisco_init
         {| filters :=
              [(sample_header "cisco" "f" ["cisco"], [twice_established])] |}
       = Ok c
       ∧ Cisco_init (policy c)
         = Ok {| policy :=
                   {| filters :=
                        [(sample_header "cisco" "f" ["cisco"],
                          [set_destination_port twice_established
                             (replicate 4 high_ports)])] |} |}.
Proof.
  eexists. split; [reflexivity|].
  refine (proj2 (proj2 (Cisco_init_again
                          {| filters :=
                               [(sample_header "cisco" "f" ["cisco"],
                                 [twice_established])] |} _ eq_refl))).
Defined.

(** [office_term] in the standard filter ["50"]: one line for the IPv4
    address, none for the IPv6 address. *)
Lemma TermStandard_str_lines_witness :
  TermStandard_str
    {| ts_term := office_term; ts_filter_name := "50"; ts_options := [] |}
  = join nl ["remark office";
             "access-list 50 permit 192.168.1.0 0.0.0.255"].
Proof.
  exact (proj1 (TermStandard_str_lines office_term "50" _ eq_refl eq_refl)).
Defined.

Lemma FixupProtocol_ignores_case_witness :
  FixupProtocol system_getprotobyname (PName "Tcp") = PNum 6
  ↔ FixupProtocol system_getprotobyname (PName "TCP") = PNum 6.
Proof.
  apply (proj1 (FixupProtocol_ignores_case system_getprotobyname "Tcp" "TCP"
                  eq_refl) 6).
Defined.

(** [multi_term] for IPv4 and [v6_only_term] for IPv4. *)
Lemma Term_statement_count_no_exclusion_witness :
  length (Term_statements system_getprotobyname no_exclusion
            (Term_init multi_term 4)) = 4%nat
  ∧ Term_statements system_getprotobyname no_exclusion
      (Term_init v6_only_term 4) = [].
Proof.
  split.
  - rewrite (proj1 (Term_statement_count_no_exclusion system_getprotobyname
                      no_exclusion multi_term 4 eq_refl eq_refl)).
    reflexivity.
  - apply (proj2 (Term_statement_count_no_exclusion system_getprotobyname
                    no_exclusion v6_only_term 4 eq_refl eq_refl));
      [discriminate | reflexivity].
Defined.

(** The mixed filter [edge] with the term [allow_web]. *)
Lemma mixed_filter_document_witness :
  filter_body system_getprotobyname no_exclusion
    (dual_stack_header "mixed", [allow_web]) ([], ObjectGroup_init)
  = Ok (Return
          (join nl
             [ "! $Id:$"; "! $Date:$";
               "no ip access-list extended edge";
               "ip access-list extended edge";
               join nl [nl; "remark allow-web"; " permit 6 any  any eq 80 "];
               nl;
               "no ipv6 access-list edge";
               "ipv6 access-list edge";
               join nl [nl; "remark allow-web"; " permit 6 any  any eq 80 "];
               nl ])).
Proof.
  rewrite (proj1 (mixed_filter_document system_getprotobyname no_exclusion
                    (dual_stack_header "mixed") [allow_web] eq_refl)).
  reflexivity.
Defined.

Lemma Cisco_str_header_first_witness :
  String.prefix ("! $Id:$" +:+ nl +:+ "! $Date:$") (join nl web_document)
  = true.
Proof.
  apply (Cisco_str_header_first system_getprotobyname no_exclusion
           {| policy := web_policy |}).
  reflexivity.
Defined.
